(** * wrap_debug_prints.py: the print-wrapping tool

    A shallow embedding of [src/wrap_debug_prints.py] and the properties of
    its statement-end locator ([find_print_end]), its wrap detector
    ([is_already_wrapped]) and its rewriter (the in-memory loop of
    [wrap_prints_in_file]).

    Text: a line is a [string]; a character is a code point below 256
    (ASCII and Latin-1), which is what the type [ascii] holds.  Python's
    classification of those code points (whitespace for [str.strip] and the
    regular expression's [\s]; word characters for [\b]) is written out.
    Indices and counters are Python integers: arithmetic that can go
    negative is done in [Z]. *)

From Stdlib Require Import List String Ascii ZArith NArith Lia Bool Arith.
Import ListNotations.

Local Open Scope string_scope.
Local Open Scope list_scope.

(** * The program *)

(** ** Python's built-ins, as far as the program uses them *)

Module Py.

(** The double quote and the newline, which Rocq's string notation cannot
    hold conveniently. *)
Definition dquote : ascii := "034"%char.
Definition newline : ascii := "010"%char.
Definition nl : string := String newline EmptyString.
Definition dq : string := String dquote EmptyString.

(** [str.isspace] on one code point below 256: TAB..CR, FS..US, space,
    NEL (0x85) and NBSP (0xA0). *)
Definition is_space (c : ascii) : bool :=
  let n := N_of_ascii c in
  (((9 <=? n) && (n <=? 13)) || ((28 <=? n) && (n <=? 32))
   || (n =? 133) || (n =? 160))%N.

(** The regular expression's [\w] on one code point below 256:
    alphanumeric (letters, digits, and the Latin-1 letters and numerics)
    or underscore. *)
Definition is_word (c : ascii) : bool :=
  let n := N_of_ascii c in
  (((48 <=? n) && (n <=? 57)) || ((65 <=? n) && (n <=? 90))
   || ((97 <=? n) && (n <=? 122)) || (n =? 95)
   || (n =? 170) || (n =? 178) || (n =? 179) || (n =? 181)
   || (n =? 185) || (n =? 186) || ((188 <=? n) && (n <=? 190))
   || ((192 <=? n) && (n <=? 214)) || ((216 <=? n) && (n <=? 246))
   || ((248 <=? n) && (n <=? 255)))%N.

(** [s.lstrip()] *)
Fixpoint lstrip (s : string) : string :=
  match s with
  | EmptyString => EmptyString
  | String c s' => if is_space c then lstrip s' else s
  end.

(** [s.rstrip()] *)
Fixpoint rstrip (s : string) : string :=
  match s with
  | EmptyString => EmptyString
  | String c s' =>
      match rstrip s' with
      | EmptyString => if is_space c then EmptyString else String c EmptyString
      | r => String c r
      end
  end.

(** [s.strip()] *)
Definition strip (s : string) : string := rstrip (lstrip s).

(** [s.startswith(p)] *)
Fixpoint startswith (s p : string) : bool :=
  match p with
  | EmptyString => true
  | String a p' =>
      match s with
      | EmptyString => false
      | String b s' => Ascii.eqb a b && startswith s' p'
      end
  end.

(** [' ' * n] *)
Fixpoint spaces (n : nat) : string :=
  match n with
  | O => EmptyString
  | S k => String " " (spaces k)
  end.

(** [l[i]] on a list: a negative index counts from the end; [None] is
    IndexError. *)
Definition getitem {A : Type} (l : list A) (i : Z) : option A :=
  let n := Z.of_nat (List.length l) in
  if (0 <=? i)%Z then nth_error l (Z.to_nat i)
  else if (- n <=? i)%Z then nth_error l (Z.to_nat (n + i))
  else None.

(** [range(start, stop)] *)
Definition range (start stop : Z) : list Z :=
  map (fun k => (start + Z.of_nat k)%Z) (seq 0 (Z.to_nat (stop - start))).

(** [range(start, stop, -1)] *)
Definition range_down (start stop : Z) : list Z :=
  map (fun k => (start - Z.of_nat k)%Z) (seq 0 (Z.to_nat (start - stop))).

(** [re.search(r'\bprint\s*\(', line)], as a truth value.
    [match_here s]: the pattern without its [\b] matches at the start of
    [s]: the letters of print, any whitespace, an opening parenthesis. *)
Fixpoint skip_space (s : string) : string :=
  match s with
  | EmptyString => EmptyString
  | String c s' => if is_space c then skip_space s' else s
  end.

Definition match_here (s : string) : bool :=
  match s with
  | String "p" (String "r" (String "i" (String "n" (String "t" r)))) =>
      match skip_space r with
      | String "(" _ => true
      | _ => false
      end
  | _ => false
  end.

(** [prev_word]: the character before the current position is a word
    character (false at the start of the line).  The current character of
    a match is the letter p, a word character, so [\b] holds exactly when
    the previous one is not. *)
Fixpoint search_from (prev_word : bool) (s : string) : bool :=
  (negb prev_word && match_here s)
  || match s with
     | EmptyString => false
     | String c s' => search_from (is_word c) s'
     end.

Definition re_search_print (line : string) : bool := search_from false line.

End Py.

Import Py.

(** ** The guard markers and the line classes of the detector *)

(** [line.startswith('#if DEBUG')] on a stripped line *)
Definition is_guard_open (line : string) : bool :=
  startswith (strip line) "#if DEBUG".

(** [lines[j].strip().startswith('#endif')] *)
Definition is_guard_close (line : string) : bool :=
  startswith (strip line) "#endif".

(** The declaration prefixes that stop the backward scan. *)
Definition is_declaration (line : string) : bool :=
  let s := strip line in
  startswith s "func " || startswith s "var " || startswith s "let "
  || startswith s "class " || startswith s "struct ".

(** ** is_already_wrapped *)

(** The inner loop: [for j in range(...): if lines[j]...: return True]. *)
Fixpoint endif_ahead (lines : list string) (js : list Z) : option bool :=
  match js with
  | [] => Some false
  | j :: js' =>
      match getitem lines j with
      | None => None
      | Some l => if is_guard_close l then Some true else endif_ahead lines js'
      end
  end.

(** The outer loop over the indices [is_], in the order the range yields
    them.  A guard-open line starts the forward search; when that finds
    nothing the same line is still tested for a declaration prefix. *)
Fixpoint scan_back (lines : list string) (line_idx : Z) (is_ : list Z)
  : option bool :=
  match is_ with
  | [] => Some false
  | i :: is' =>
      match getitem lines i with
      | None => None
      | Some l =>
          let found :=
            if is_guard_open l
            then endif_ahead lines
                   (range (line_idx + 1)
                      (Z.min (Z.of_nat (List.length lines)) (line_idx + 10)))
            else Some false in
          match found with
          | None => None
          | Some true => Some true
          | Some false =>
              if is_declaration l then Some false
              else scan_back lines line_idx is'
          end
      end
  end.

(** [None] is an IndexError of the source. *)
Definition is_already_wrapped (lines : list string) (line_idx : nat)
  : option bool :=
  let idx := Z.of_nat line_idx in
  scan_back lines idx (range_down (idx - 1) (Z.max 0 (idx - 10))).

(** ** find_print_end *)

Record scan_state : Type := mkScan {
  paren_count : Z;
  in_string : bool;
  escape_next : bool
}.

Definition scan_init : scan_state := mkScan 0 false false.

(** What one pass of the character loop's body does: go on with a new
    state, or return from the function. *)
Inductive outcome : Type :=
| Next (st : scan_state)
| Return.

Definition scan_char (st : scan_state) (c : ascii) : outcome :=
  if escape_next st then
    Next (mkScan (paren_count st) (in_string st) false)
  else if Ascii.eqb c "\" then
    Next (mkScan (paren_count st) (in_string st) true)
  else if Ascii.eqb c dquote && negb (in_string st) then
    Next (mkScan (paren_count st) true (escape_next st))
  else if Ascii.eqb c dquote && in_string st then
    Next (mkScan (paren_count st) false (escape_next st))
  else if negb (in_string st) then
    if Ascii.eqb c "(" then
      Next (mkScan (paren_count st + 1) (in_string st) (escape_next st))
    else if Ascii.eqb c ")" then
      let n := (paren_count st - 1)%Z in
      if (n =? 0)%Z then Return
      else Next (mkScan n (in_string st) (escape_next st))
    else Next st
  else Next st.

(** [for char in line: ...] *)
Fixpoint scan_line (st : scan_state) (line : string) : outcome :=
  match line with
  | EmptyString => Next st
  | String c rest =>
      match scan_char st c with
      | Return => Return
      | Next st' => scan_line st' rest
      end
  end.

(** [for idx in range(start_idx, len(lines)): line = lines[idx]; ...]:
    [rest] is [lines[idx:]]; [Some idx] is the [return idx] of the loop. *)
Fixpoint scan_lines (st : scan_state) (idx : nat) (rest : list string)
  : option nat :=
  match rest with
  | [] => None
  | line :: rest' =>
      match scan_line st line with
      | Return => Some idx
      | Next st' => scan_lines st' (S idx) rest'
      end
  end.

Definition find_print_end (lines : list string) (start_idx : nat) : nat :=
  match scan_lines scan_init start_idx (skipn start_idx lines) with
  | Some idx => idx
  | None => start_idx
  end.

(** ** get_indentation *)

Definition get_indentation (line : string) : nat :=
  String.length line - String.length (lstrip line).

(** ** wrap_prints_in_file: the loop between the read and the write *)

Definition guard_open (n : nat) : string := spaces n ++ "#if DEBUG" ++ nl.
Definition guard_close (n : nat) : string := spaces n ++ "#endif" ++ nl.

(** The test of the loop's first [if]. *)
Definition is_candidate (line : string) : bool :=
  re_search_print line && negb (startswith (strip line) "//").

(** [lines[i], ..., lines[end_idx]], the lines the inner [for] appends. *)
Definition slice (lines : list string) (i end_idx : nat) : list string :=
  firstn (end_idx + 1 - i) (skipn i lines).

Record wrap_state : Type := mkWrap {
  cursor : nat;
  new_lines : list string;
  changes_made : nat
}.

(** One pass of the [while] body, entered with [cursor st < len(lines)]. *)
Definition wrap_body (lines : list string) (st : wrap_state)
  : option wrap_state :=
  let i := cursor st in
  match nth_error lines i with
  | None => None
  | Some line =>
      let pass :=
        Some (mkWrap (i + 1) (new_lines st ++ [line]) (changes_made st)) in
      if is_candidate line then
        match is_already_wrapped lines i with
        | None => None
        | Some true => pass
        | Some false =>
            let end_idx := find_print_end lines i in
            let indent := get_indentation line in
            Some (mkWrap (end_idx + 1)
                    (new_lines st ++ [guard_open indent]
                       ++ slice lines i end_idx ++ [guard_close indent])
                    (changes_made st + 1))
        end
      else pass
  end.

(** [while i < len(lines): ...]; [None] when the fuel runs out or an
    exception escapes. *)
Fixpoint wrap_loop (fuel : nat) (lines : list string) (st : wrap_state)
  : option wrap_state :=
  if Nat.ltb (cursor st) (List.length lines) then
    match fuel with
    | O => None
    | S fuel' =>
        match wrap_body lines st with
        | None => None
        | Some st' => wrap_loop fuel' lines st'
        end
    end
  else Some st.

(** The per-file transform on the lines read from the file: the new line
    sequence and the number of changes; the source writes the new lines
    back when, and only when, the number is positive, and returns the
    number. *)
Definition wrap_prints_in_file (lines : list string)
  : option (list string * nat) :=
  match wrap_loop (List.length lines) lines (mkWrap 0 [] 0) with
  | Some st => Some (new_lines st, changes_made st)
  | None => None
  end.

(** * Vocabulary of the properties *)

(** ** The character stream of a statement *)

(** The state after one character, the [return] left aside: at the
    closing parenthesis that returns, the counter has been decremented to
    zero. *)
Definition advance (st : scan_state) (c : ascii) : scan_state :=
  match scan_char st c with
  | Next st' => st'
  | Return => mkScan 0 (in_string st) (escape_next st)
  end.

(** The state after all the characters of [s]. *)
Fixpoint feed (st : scan_state) (s : string) : scan_state :=
  match s with
  | EmptyString => st
  | String c rest => feed (advance st c) rest
  end.

(** After the characters [pre], read from state [st], a closing
    parenthesis closes the statement: it is neither escaped nor quoted, and
    the depth is one. *)
Definition closes_at (st : scan_state) (pre : string) : Prop :=
  escape_next (feed st pre) = false
  /\ in_string (feed st pre) = false
  /\ paren_count (feed st pre) = 1%Z.

(** The characters of a list of lines, one after the other. *)
Definition chars_of (ls : list string) : string :=
  String.concat EmptyString ls.

(** The prefixes of [s] that a closing parenthesis follows. *)
Fixpoint close_prefixes (s : string) : list string :=
  match s with
  | EmptyString => []
  | String c r =>
      (if Ascii.eqb c ")" then [EmptyString] else [])
        ++ map (String c) (close_prefixes r)
  end.

(** ** The rewriter's loop as a relation *)

(** [Emits lines i out n]: entered with the cursor at [i], the loop appends
    the lines [out] to [new_lines] and adds [n] to [changes_made]. *)
Inductive Emits (lines : list string) : nat -> list string -> nat -> Prop :=
| Emits_done (i : nat) :
    List.length lines <= i -> Emits lines i [] 0
| Emits_pass (i : nat) (line : string) (out : list string) (n : nat) :
    nth_error lines i = Some line ->
    is_candidate line = false \/ is_already_wrapped lines i = Some true ->
    Emits lines (S i) out n ->
    Emits lines i (line :: out) n
| Emits_wrap (i : nat) (line : string) (out : list string) (n : nat) :
    nth_error lines i = Some line ->
    is_candidate line = true ->
    is_already_wrapped lines i = Some false ->
    Emits lines (S (find_print_end lines i)) out n ->
    Emits lines i
      (guard_open (get_indentation line)
         :: slice lines i (find_print_end lines i)
         ++ guard_close (get_indentation line) :: out)
      (S n).

(** ** Frame: what the rewriter leaves and what it adds *)

(** A line the rewriter inserts. *)
Inductive inserted_marker : string -> Prop :=
| inserted_open (n : nat) : inserted_marker (guard_open n)
| inserted_close (n : nat) : inserted_marker (guard_close n).

(** [Interleaved input output]: [output] is [input], every line once and in
    order, with inserted marker lines in between. *)
Inductive Interleaved : list string -> list string -> Prop :=
| Interleaved_nil : Interleaved [] []
| Interleaved_keep (l : string) (input output : list string) :
    Interleaved input output -> Interleaved (l :: input) (l :: output)
| Interleaved_insert (m : string) (input output : list string) :
    inserted_marker m ->
    Interleaved input output -> Interleaved input (m :: output).

(** ** Guard pairing *)

(** A line that the detector takes for neither marker. *)
Definition plain (l : string) : Prop :=
  is_guard_open l = false /\ is_guard_close l = false.

(** [Paired out]: [out] is made of plain lines and of blocks; a block is a
    guard-open line, one or more plain lines, a guard-close line, both
    markers indented as the first line between them. *)
Inductive Paired : list string -> Prop :=
| Paired_nil : Paired []
| Paired_plain (l : string) (rest : list string) :
    plain l -> Paired rest -> Paired (l :: rest)
| Paired_block (o first c : string) (span rest : list string) :
    is_guard_open o = true -> is_guard_close c = true ->
    Forall plain (first :: span) ->
    get_indentation o = get_indentation first ->
    get_indentation c = get_indentation first ->
    Paired rest ->
    Paired (o :: (first :: span) ++ c :: rest).

(** The guard-open line at index [p] of [out] has its guard-close line at
    index [q]: only plain lines lie between the two, both are indented as
    line [p + 1], and a later guard-close line has a guard-open line of its
    own after [q]. *)
Definition paired_at (out : list string) (p q : nat) : Prop :=
  p + 1 < q
  /\ (exists first c,
        nth_error out (p + 1) = Some first /\ nth_error out q = Some c
        /\ is_guard_close c = true
        /\ (forall o, nth_error out p = Some o ->
                      get_indentation o = get_indentation first)
        /\ get_indentation c = get_indentation first)
  /\ (forall r l, p < r < q -> nth_error out r = Some l -> plain l)
  /\ (forall r l, q < r -> nth_error out r = Some l ->
                  is_guard_close l = true ->
                  exists p' o', q < p' < r /\ nth_error out p' = Some o'
                                /\ is_guard_open o' = true).

(** ** The statement-end rule in the words of the specification *)

(** The statement-end rule in the spec's words: the first line after
    whose full content the depth is zero, having been positive before.
    [feed_positive] also keeps whether the depth has been positive. *)
Fixpoint feed_positive (st : scan_state) (was_positive : bool) (s : string)
  : scan_state * bool :=
  match s with
  | EmptyString => (st, was_positive)
  | String c r =>
      let st' := advance st c in
      feed_positive st' (was_positive || (0 <? paren_count st')%Z) r
  end.

Fixpoint line_end_scan (st : scan_state) (was_positive : bool) (idx : nat)
         (rest : list string) : option nat :=
  match rest with
  | [] => None
  | line :: rest' =>
      let '(st', pos') := feed_positive st was_positive line in
      if (paren_count st' =? 0)%Z && pos' then Some idx
      else line_end_scan st' pos' (S idx) rest'
  end.

Definition line_end_rule (lines : list string) (start_idx : nat) : nat :=
  match line_end_scan scan_init false start_idx (skipn start_idx lines) with
  | Some idx => idx
  | None => start_idx
  end.

(** ** Line comments *)


(** ** Sample files *)

(** A line of text with its newline. *)
Definition ln (s : string) : string := (s ++ nl)%string.

(** A file that is one print statement. *)
Definition statement_at_start : list string := [ ln "print(x)" ].

(** An indented print statement between two other lines. *)
Definition indented_statement : list string :=
  [ ln "// header";
    ("    print(" ++ dq ++ "hi" ++ dq ++ ")" ++ nl)%string;
    ln "let x = 1" ].


(** A print statement of two lines that holds a second print call, between
    two other lines. *)
Definition nested_statement : list string :=
  [ ln "// header"; ln "  print(describe("; ln "    print(x)))";
    ln "let y = 2" ].

(** A print statement of three lines; the string literal of its second line
    holds an escaped quote and a closing parenthesis. *)
Definition escaped_quote_statement : list string :=
  [ ln "print(";
    ("  " ++ dq ++ "a\" ++ dq ++ ")b" ++ dq ++ "," ++ nl)%string;
    ln ")" ].

(** Text free of quotes and backslashes, as it stands inside a string
    literal. *)
Fixpoint is_quoted_text (s : string) : bool :=
  match s with
  | EmptyString => true
  | String c r =>
      negb (Ascii.eqb c dquote) && negb (Ascii.eqb c "\") && is_quoted_text r
  end.

(** The three-line print statements whose string literal is the text [a],
    an escaped quote, a closing parenthesis and the text [b]. *)
Definition escaped_quote_lines (a b : string) : list string :=
  [ ln "print(";
    ("  " ++ dq ++ a ++ "\" ++ dq ++ ")" ++ b ++ dq ++ "," ++ nl)%string;
    ln ")" ].

(** A line on which the depth comes back to zero and rises again. *)
Definition reopened_line : list string :=
  [ ln "print(a); foo("; ln "  b)" ].

(** A print statement that is never closed: its only closing parenthesis is
    quoted. *)
Definition unterminated_statement : list string :=
  [ ln "// header"; ("print(" ++ dq ++ "a)" ++ dq ++ nl)%string;
    ln "let z = 3" ].

(** A guard-open line, a declaration line, a print statement, a
    guard-close line. *)
Definition boundary_sample : list string :=
  [ ln "#if DEBUG"; ln "func report() {";
    ("print(" ++ dq ++ "x" ++ dq ++ ")" ++ nl)%string; ln "#endif" ].

(** A guarded print statement at the very start of a file. *)
Definition guarded_at_start : list string :=
  [ ln "#if DEBUG"; ln "print(x)"; ln "#endif" ].

(** [filler n]: [n] lines of other code. *)
Definition filler (n : nat) : list string := repeat (ln "step()") n.

(** A guard-open line [back] lines before a print statement and a
    guard-close line [ahead] lines after it, below one header line. *)
Definition guard_at_distance (back ahead : nat) : list string :=
  [ ln "// header"; ln "#if DEBUG" ] ++ filler (back - 1)
    ++ [ ln "print(x)" ] ++ filler (ahead - 1) ++ [ ln "#endif" ].

(** A print statement between two complete guard blocks. *)
Definition between_blocks : list string :=
  [ ln "// header"; ln "#if DEBUG"; ln "foo()"; ln "#endif"; ln "print(x)";
    ln "    #if DEBUG"; ln "    bar()"; ln "    #endif" ].


(** A statement that starts with a declaration prefix and holds a second
    print call on its second line. *)
Definition declaration_inside : list string :=
  [ ln "// header"; ln "let s = print("; ln "  print(1))" ].

(** A guard-open line whose guard-close line is far below, with two print
    statements in between: the upper one is out of reach of the guard-close
    line, the lower one is not. *)
Definition stale_guard : list string :=
  [ ln "// header"; ln "#if DEBUG"; ln "print(a)" ] ++ filler 7
    ++ [ ln "print(b)"; ln "step()"; ln "#endif" ].

(** ** The file around the loop, and the driver *)

(** [f.readlines()] on the text of a file, as text mode hands it over
    (line ends already translated to the newline character): every line
    keeps its newline; a last line without one is kept as it is. *)
Fixpoint readlines (text : string) : list string :=
  match text with
  | EmptyString => []
  | String c r =>
      if Ascii.eqb c newline then String c EmptyString :: readlines r
      else match readlines r with
           | [] => [String c EmptyString]
           | l :: ls => String c l :: ls
           end
  end.

(** [f.writelines(new_lines)] writes the lines one after the other. *)
Definition writelines (ls : list string) : string := chars_of ls.

(** A string without a newline character. *)
Fixpoint no_newline (s : string) : bool :=
  match s with
  | EmptyString => true
  | String c r => negb (Ascii.eqb c newline) && no_newline r
  end.

(** A line as [readlines] gives it anywhere but at the end of a file that
    lacks its last newline: some text, then the line's only newline. *)
Definition terminated (l : string) : Prop :=
  exists body, l = (body ++ nl)%string /\ no_newline body = true.




(** The loop of [main] over the values the calls return:
    [(total_changes, files_modified)]. *)
Definition main_step (acc : nat * nat) (changes : nat) : nat * nat :=
  if Nat.ltb 0 changes then (fst acc + changes, snd acc + 1) else acc.

Definition main_totals (results : list nat) : nat * nat :=
  fold_left main_step results (0, 0).

(** ** Vocabulary of the further properties *)

(** What the rewriter makes of one line when statements end on their first
    line. *)
Definition wrap_line (l : string) : list string :=
  if is_candidate l
  then [guard_open (get_indentation l); l; guard_close (get_indentation l)]
  else [l].

(** The pieces of a run: a line passed on, or a block of lines that gets a
    guard pair. *)
Inductive segment : Type :=
| Passed (l : string)
| Wrapped (first : string) (more : list string).

Definition segment_input (sg : segment) : list string :=
  match sg with
  | Passed l => [l]
  | Wrapped first more => first :: more
  end.

Definition segment_output (sg : segment) : list string :=
  match sg with
  | Passed l => [l]
  | Wrapped first more =>
      guard_open (get_indentation first)
        :: (first :: more) ++ [guard_close (get_indentation first)]
  end.

Definition is_wrapped_segment (sg : segment) : bool :=
  match sg with
  | Passed _ => false
  | Wrapped _ _ => true
  end.

(** The first line of a wrapped block is a candidate line; a line passed
    on is no candidate line, or it is a line of the file that the detector
    reports wrapped. *)
Definition segment_ok (lines : list string) (sg : segment) : Prop :=
  match sg with
  | Passed l =>
      is_candidate l = false
      \/ exists j, nth_error lines j = Some l
                   /\ is_already_wrapped lines j = Some true
  | Wrapped first _ => is_candidate first = true
  end.

(** Line [k] of [out] lies inside a guard pair that the rewriter inserted:
    between an inserted guard-open line and the inserted guard-close line
    of the same indentation, with only lines of [input] between the
    two. *)
Definition enclosed (out input : list string) (k : nat) : Prop :=
  exists p q n,
    p < k /\ k < q
    /\ nth_error out p = Some (guard_open n)
    /\ nth_error out q = Some (guard_close n)
    /\ forall r, p < r < q ->
                 exists l, nth_error out r = Some l /\ In l input.

(** A string made of whitespace. *)
Fixpoint all_space (s : string) : bool :=
  match s with
  | EmptyString => true
  | String c r => is_space c && all_space r
  end.

(** * combine_csvs.py: the book records and the removal of duplicates *)

Module Csv.

(** [\d] of the regular expressions, on a code point below 256. *)
Definition is_digit (c : ascii) : bool :=
  let n := N_of_ascii c in ((48 <=? n) && (n <=? 57))%N.

(** [str.lower] on one code point below 256: the letters A to Z and the
    Latin-1 capitals (0xC0 to 0xDE, the multiplication sign left out) move
    up by 32. *)
Definition lower_char (c : ascii) : ascii :=
  let n := N_of_ascii c in
  if (((65 <=? n) && (n <=? 90))
      || ((192 <=? n) && (n <=? 222) && negb (n =? 215)))%N
  then ascii_of_N (n + 32) else c.

Fixpoint lower (s : string) : string :=
  match s with
  | EmptyString => EmptyString
  | String c r => String (lower_char c) (lower r)
  end.

(** [str.upper] on one ASCII character; the source applies it to digits
    and the letters x and X only. *)
Definition upper_char (c : ascii) : ascii :=
  let n := N_of_ascii c in
  if ((97 <=? n) && (n <=? 122))%N then ascii_of_N (n - 32) else c.

Fixpoint upper (s : string) : string :=
  match s with
  | EmptyString => EmptyString
  | String c r => String (upper_char c) (upper r)
  end.

(** [s.strip(ch)] for one character [ch], in its two halves. *)
Fixpoint lstrip_char (ch : ascii) (s : string) : string :=
  match s with
  | EmptyString => EmptyString
  | String c r => if Ascii.eqb c ch then lstrip_char ch r else s
  end.

Fixpoint rstrip_char (ch : ascii) (s : string) : string :=
  match s with
  | EmptyString => EmptyString
  | String c r =>
      match rstrip_char ch r with
      | EmptyString =>
          if Ascii.eqb c ch then EmptyString else String c EmptyString
      | t => String c t
      end
  end.

Definition strip_char (ch : ascii) (s : string) : string :=
  rstrip_char ch (lstrip_char ch s).

(** [re.sub(r'\s+', ' ', text)]: every run of whitespace becomes one
    space; [in_run] tells that the run's space has been put out. *)
Fixpoint collapse_spaces (in_run : bool) (s : string) : string :=
  match s with
  | EmptyString => EmptyString
  | String c r =>
      if is_space c
      then if in_run then collapse_spaces true r
           else String " " (collapse_spaces true r)
      else String c (collapse_spaces false r)
  end.

Definition normalize_text (text : string) : string :=
  match text with
  | EmptyString => EmptyString
  | _ =>
      collapse_spaces false
        (strip (strip_char "'" (strip_char dquote (strip text))))
  end.

(** [re.sub(r'[^\dXx]', '', s)] *)
Fixpoint keep_isbn_chars (s : string) : string :=
  match s with
  | EmptyString => EmptyString
  | String c r =>
      if is_digit c || Ascii.eqb c "X" || Ascii.eqb c "x"
      then String c (keep_isbn_chars r) else keep_isbn_chars r
  end.

(** [s.endswith(ch)] for one character. *)
Fixpoint endswith_char (s : string) (ch : ascii) : bool :=
  match s with
  | EmptyString => false
  | String c EmptyString => Ascii.eqb c ch
  | String _ r => endswith_char r ch
  end.

(** [s[:n]] *)
Fixpoint take (n : nat) (s : string) : string :=
  match n, s with
  | S k, String c r => String c (take k r)
  | _, _ => EmptyString
  end.

Definition normalize_isbn (isbn : string) : string :=
  match isbn with
  | EmptyString => EmptyString
  | _ =>
      let isbn_clean := upper (keep_isbn_chars (strip isbn)) in
      if Nat.eqb (String.length isbn_clean) 10 then
        if endswith_char isbn_clean "X" then isbn_clean
        else ("978" ++ take 9 isbn_clean)%string
      else isbn_clean
  end.

Record BookRecord : Type := mkBook {
  title : string;
  author : string;
  isbn : string;
  year : string
}.

(** [BookRecord(title, author, isbn, year)] *)
Definition new_BookRecord (title author isbn year : string) : BookRecord :=
  mkBook (normalize_text title) (normalize_text author)
         (normalize_isbn isbn) (strip year).

(** [self.isbn and len(self.isbn) >= 10] *)
Definition has_isbn (b : BookRecord) : bool :=
  negb (String.eqb (isbn b) EmptyString)
  && Nat.leb 10 (String.length (isbn b)).

Definition dedup_key (b : BookRecord) : string :=
  if has_isbn b then ("isbn:" ++ isbn b)%string
  else ("title_author:" ++ lower (title b) ++ ":" ++ lower (author b))%string.

(** A set of strings, for [in] and [add]. *)
Definition set_mem (k : string) (s : list string) : bool :=
  existsb (String.eqb k) s.

Definition set_add (k : string) (s : list string) : list string :=
  if set_mem k s then s else k :: s.

Record dedup_state : Type := mkDedup {
  seen_keys : list string;
  unique_books : list BookRecord;
  duplicate_count : nat
}.

(** One pass of the loop of [remove_duplicates]. *)
Definition dedup_step (st : dedup_state) (book : BookRecord) : dedup_state :=
  let key := dedup_key book in
  if negb (set_mem key (seen_keys st)) then
    mkDedup (set_add key (seen_keys st)) (unique_books st ++ [book])
            (duplicate_count st)
  else
    mkDedup (seen_keys st) (unique_books st) (duplicate_count st + 1).

(** [remove_duplicates]: the new [self.books] and
    [stats['duplicates_removed']]. *)
Definition remove_duplicates (books : list BookRecord)
  : list BookRecord * nat :=
  let st := fold_left dedup_step books (mkDedup [] [] 0) in
  (unique_books st, duplicate_count st).

(** [calculate_stats], the counts: [unique_books], [unique_authors] and
    the number of books with an ISBN, of which [isbn_coverage] is the
    percentage. *)
Definition calculate_stats (books : list BookRecord) : nat * nat * nat :=
  let authors :=
    fold_left (fun s b => set_add (lower (author b)) s) books [] in
  let books_with_isbn :=
    fold_left (fun n b => if has_isbn b then n + 1 else n) books 0 in
  (List.length books, List.length authors, books_with_isbn).

(** A text in the form [normalize_text] aims at: no whitespace at either
    end, and inside only single spaces.  [prev] tells that the character
    before is a space, or that the text starts here. *)
Fixpoint spaced_from (prev : bool) (s : string) : bool :=
  match s with
  | EmptyString => negb prev
  | String c r =>
      if is_space c then Ascii.eqb c " " && negb prev && spaced_from true r
      else spaced_from false r
  end.

Definition single_spaced (s : string) : bool :=
  match s with
  | EmptyString => true
  | _ => spaced_from true s
  end.

(** A string of digits and the letter X. *)
Fixpoint isbn_chars (s : string) : bool :=
  match s with
  | EmptyString => true
  | String c r => (is_digit c || Ascii.eqb c "X") && isbn_chars r
  end.

(** [Subseq kept all]: the list [kept] is [all] with some elements left
    out, the others in their order. *)
Inductive Subseq {A : Type} : list A -> list A -> Prop :=
| Subseq_nil : Subseq [] []
| Subseq_skip (x : A) (kept all : list A) :
    Subseq kept all -> Subseq kept (x :: all)
| Subseq_keep (x : A) (kept all : list A) :
    Subseq kept all -> Subseq (x :: kept) (x :: all).

(** The first record of [books] that has the key of [b]. *)
Definition first_with_key (b : BookRecord) (books : list BookRecord)
  : option BookRecord :=
  find (fun b' => String.eqb (dedup_key b') (dedup_key b)) books.

(** What the loop of [remove_duplicates] keeps true, [done] being the records gone through. *)
Definition dedup_inv (done : list BookRecord) (st : dedup_state) : Prop :=
  (forall k, In k (seen_keys st) <-> In k (map dedup_key (unique_books st)))
  /\ NoDup (map dedup_key (unique_books st))
  /\ (forall b, In b done ->
                In (dedup_key b) (map dedup_key (unique_books st)))
  /\ Forall (fun b => first_with_key b done = Some b) (unique_books st)
  /\ Subseq (unique_books st) done
  /\ duplicate_count st + List.length (unique_books st) = List.length done.

End Csv.

(** * Properties *)

(** ** Strings and markers *)

Section Markers.

Lemma lstrip_spaces (n : nat) (s : string) :
  lstrip (spaces n ++ s) = lstrip s.
Proof. induction n as [|n IH]; simpl; auto. Qed.

Lemma length_append (s t : string) :
  String.length (s ++ t) = String.length s + String.length t.
Proof. induction s as [|c s IH]; simpl; auto. Qed.

Lemma length_spaces (n : nat) : String.length (spaces n) = n.
Proof. induction n as [|n IH]; simpl; auto. Qed.

Lemma strip_guard_open (n : nat) : strip (guard_open n) = "#if DEBUG".
Proof. unfold strip, guard_open. rewrite lstrip_spaces. reflexivity. Qed.

Lemma strip_guard_close (n : nat) : strip (guard_close n) = "#endif".
Proof. unfold strip, guard_close. rewrite lstrip_spaces. reflexivity. Qed.

Lemma guard_open_is_open (n : nat) : is_guard_open (guard_open n) = true.
Proof. unfold is_guard_open. rewrite strip_guard_open. reflexivity. Qed.

Lemma guard_close_is_close (n : nat) : is_guard_close (guard_close n) = true.
Proof. unfold is_guard_close. rewrite strip_guard_close. reflexivity. Qed.

Lemma guard_open_not_close (n : nat) : is_guard_close (guard_open n) = false.
Proof. unfold is_guard_close. rewrite strip_guard_open. reflexivity. Qed.

Lemma guard_close_not_open (n : nat) : is_guard_open (guard_close n) = false.
Proof. unfold is_guard_open. rewrite strip_guard_close. reflexivity. Qed.

Lemma guard_open_not_declaration (n : nat) :
  is_declaration (guard_open n) = false.
Proof. unfold is_declaration. rewrite strip_guard_open. reflexivity. Qed.

Lemma guard_close_not_declaration (n : nat) :
  is_declaration (guard_close n) = false.
Proof. unfold is_declaration. rewrite strip_guard_close. reflexivity. Qed.

Lemma search_from_spaces (t : string) :
  (forall b, search_from b t = false) ->
  forall n b, search_from b (spaces n ++ t) = false.
Proof.
  intros Ht n. induction n as [|n IH]; intros b; simpl.
  - apply Ht.
  - rewrite IH. destruct b; reflexivity.
Qed.

Lemma guard_open_not_candidate (n : nat) :
  is_candidate (guard_open n) = false.
Proof.
  unfold is_candidate, re_search_print, guard_open.
  rewrite search_from_spaces; [reflexivity|].
  intros []; reflexivity.
Qed.

Lemma guard_close_not_candidate (n : nat) :
  is_candidate (guard_close n) = false.
Proof.
  unfold is_candidate, re_search_print, guard_close.
  rewrite search_from_spaces; [reflexivity|].
  intros []; reflexivity.
Qed.

Lemma length_lstrip_le (s : string) :
  String.length (lstrip s) <= String.length s.
Proof.
  induction s as [|c s IH]; simpl; [lia|].
  destruct (is_space c); simpl; lia.
Qed.

Lemma get_indentation_spaces (n : nat) (s : string) :
  get_indentation (spaces n ++ s) = n + get_indentation s.
Proof.
  unfold get_indentation.
  rewrite lstrip_spaces, length_append, length_spaces.
  pose proof (length_lstrip_le s). lia.
Qed.

Lemma get_indentation_guard_open (n : nat) :
  get_indentation (guard_open n) = n.
Proof.
  unfold guard_open. rewrite get_indentation_spaces.
  change (get_indentation ("#if DEBUG" ++ nl)) with 0. lia.
Qed.

Lemma get_indentation_guard_close (n : nat) :
  get_indentation (guard_close n) = n.
Proof.
  unfold guard_close. rewrite get_indentation_spaces.
  change (get_indentation ("#endif" ++ nl)) with 0. lia.
Qed.

(** A declaration line is not a guard-open line: their first characters
    differ. *)
Lemma declaration_not_open (l : string) :
  is_declaration l = true -> is_guard_open l = false.
Proof.
  unfold is_declaration, is_guard_open.
  destruct (strip l) as [|c s]; [discriminate|].
  cbn [startswith].
  destruct (Ascii.eqb_spec "#" c) as [<-|Hc]; [discriminate|reflexivity].
Qed.

End Markers.

(** ** Indexing and ranges *)

Section Ranges.

Lemma getitem_nat {A : Type} (l : list A) (k : nat) :
  getitem l (Z.of_nat k) = nth_error l k.
Proof.
  unfold getitem.
  destruct (Z.leb_spec 0 (Z.of_nat k)); [|lia].
  now rewrite Nat2Z.id.
Qed.

Lemma range_nil (a b : Z) : (b <= a)%Z -> range a b = [].
Proof.
  intros H. unfold range.
  replace (Z.to_nat (b - a)) with 0 by lia. reflexivity.
Qed.

Lemma range_cons (a b : Z) :
  (a < b)%Z -> range a b = a :: range (a + 1) b.
Proof.
  intros H. unfold range.
  replace (Z.to_nat (b - a)) with (S (Z.to_nat (b - (a + 1)))) by lia.
  simpl. f_equal; [lia|].
  rewrite <- seq_shift, map_map.
  apply map_ext. intros k. lia.
Qed.

Lemma range_down_nil (a b : Z) : (a <= b)%Z -> range_down a b = [].
Proof.
  intros H. unfold range_down.
  replace (Z.to_nat (a - b)) with 0 by lia. reflexivity.
Qed.

Lemma range_down_cons (a b : Z) :
  (b < a)%Z -> range_down a b = a :: range_down (a - 1) b.
Proof.
  intros H. unfold range_down.
  replace (Z.to_nat (a - b)) with (S (Z.to_nat (a - 1 - b))) by lia.
  simpl. f_equal; [lia|].
  rewrite <- seq_shift, map_map.
  apply map_ext. intros k. lia.
Qed.

Lemma in_range (a b j : Z) : In j (range a b) <-> (a <= j < b)%Z.
Proof.
  unfold range. rewrite in_map_iff. split.
  - intros (k & <- & Hk). apply in_seq in Hk. lia.
  - intros H. exists (Z.to_nat (j - a)). split; [lia|].
    apply in_seq. lia.
Qed.

Lemma in_range_down (a b j : Z) : In j (range_down a b) <-> (b < j <= a)%Z.
Proof.
  unfold range_down. rewrite in_map_iff. split.
  - intros (k & <- & Hk). apply in_seq in Hk. lia.
  - intros H. exists (Z.to_nat (a - j)). split; [lia|].
    apply in_seq. lia.
Qed.

(** A descending range splits at any index it holds. *)
Lemma range_down_split (a b p : Z) :
  (b < p <= a)%Z ->
  range_down a b = range_down a p ++ p :: range_down (p - 1) b.
Proof.
  intros H.
  remember (Z.to_nat (a - p)) as n eqn:Hn.
  revert a H Hn. induction n as [|n IH]; intros a H Hn.
  - assert (a = p) by lia. subst a.
    rewrite (range_down_nil p p) by lia. simpl.
    apply range_down_cons. lia.
  - rewrite (range_down_cons a b) by lia.
    rewrite (range_down_cons a p) by lia.
    simpl. f_equal. apply IH; lia.
Qed.

End Ranges.

(** ** The wrap detector's two scans *)

(** A property of the indices [i :: is_] holds for those of [is_]. *)
Ltac in_tail H :=
  let k := fresh "k" in
  let Hk := fresh "Hk" in
  intros k Hk; apply H; now right.

Section Detector.

Variable lines : list string.

Let len : Z := Z.of_nat (List.length lines).

Lemma getitem_valid (j : Z) :
  (0 <= j < len)%Z -> exists l, getitem lines j = Some l.
Proof.
  intros H. rewrite <- (Z2Nat.id j) by lia. rewrite getitem_nat.
  destruct (nth_error lines (Z.to_nat j)) as [l|] eqn:E; [eauto|].
  apply nth_error_None in E. subst len. lia.
Qed.

Lemma endif_ahead_total (js : list Z) :
  (forall j, In j js -> (0 <= j < len)%Z) ->
  exists b, endif_ahead lines js = Some b.
Proof.
  induction js as [|j js IH]; intros Hv; simpl; [eauto|].
  destruct (getitem_valid j) as [l ->]; [apply Hv; now left|].
  destruct (is_guard_close l); [eauto|].
  apply IH. in_tail Hv.
Qed.

Lemma endif_ahead_true (js : list Z) (q : Z) (lq : string) :
  (forall j, In j js -> (0 <= j < len)%Z) ->
  In q js -> getitem lines q = Some lq -> is_guard_close lq = true ->
  endif_ahead lines js = Some true.
Proof.
  induction js as [|j js IH]; intros Hv Hin Hq Hc; simpl; [destruct Hin|].
  destruct (getitem_valid j) as [l Hl]; [apply Hv; now left|].
  rewrite Hl. destruct (is_guard_close l) eqn:El; [reflexivity|].
  destruct Hin as [->|Hin]; [congruence|].
  apply IH; auto. in_tail Hv.
Qed.

Lemma endif_ahead_false (js : list Z) :
  (forall j, In j js ->
     exists l, getitem lines j = Some l /\ is_guard_close l = false) ->
  endif_ahead lines js = Some false.
Proof.
  induction js as [|j js IH]; intros H; simpl; [reflexivity|].
  destruct (H j (or_introl eq_refl)) as (l & -> & ->).
  apply IH. in_tail H.
Qed.

Variable idx : Z.

Let ahead : option bool :=
  endif_ahead lines (range (idx + 1) (Z.min len (idx + 10))).

Lemma scan_back_total (is_ : list Z) :
  (forall i, In i is_ -> (0 <= i < len)%Z) ->
  (exists b, ahead = Some b) ->
  exists b, scan_back lines idx is_ = Some b.
Proof.
  intros Hv [b Hb]. induction is_ as [|i is_ IH]; simpl; [eauto|].
  destruct (getitem_valid i) as [l ->]; [apply Hv; now left|].
  fold len. fold ahead. rewrite Hb.
  destruct (is_guard_open l), b, (is_declaration l); eauto;
    apply IH; in_tail Hv.
Qed.

(** A guard-open line reached over lines that are no declarations, with a
    successful forward search, gives True. *)
Lemma scan_back_true (is1 is2 : list Z) (p : Z) (lp : string) :
  (forall i, In i is1 ->
     exists l, getitem lines i = Some l /\ is_declaration l = false) ->
  getitem lines p = Some lp -> is_guard_open lp = true ->
  ahead = Some true ->
  scan_back lines idx (is1 ++ p :: is2) = Some true.
Proof.
  intros H1 Hp Ho Ha. induction is1 as [|i is1 IH]; simpl.
  - rewrite Hp, Ho. fold len. fold ahead. now rewrite Ha.
  - destruct (H1 i (or_introl eq_refl)) as (l & -> & Hd).
    fold len. fold ahead. rewrite Ha, Hd.
    destruct (is_guard_open l); [reflexivity|].
    apply IH. in_tail H1.
Qed.

(** No guard-open line among the scanned ones gives False. *)
Lemma scan_back_no_open (is_ : list Z) :
  (forall i, In i is_ ->
     exists l, getitem lines i = Some l /\ is_guard_open l = false) ->
  scan_back lines idx is_ = Some false.
Proof.
  induction is_ as [|i is_ IH]; intros H; simpl; [reflexivity|].
  destruct (H i (or_introl eq_refl)) as (l & -> & ->).
  destruct (is_declaration l); [reflexivity|].
  apply IH. in_tail H.
Qed.

(** A declaration line reached over lines that are no guard-open lines
    gives False, whatever lies behind it. *)
Lemma scan_back_declaration (is1 is2 : list Z) (d : Z) (ld : string) :
  (forall i, In i is1 ->
     exists l, getitem lines i = Some l /\ is_guard_open l = false) ->
  getitem lines d = Some ld -> is_declaration ld = true ->
  scan_back lines idx (is1 ++ d :: is2) = Some false.
Proof.
  intros H1 Hd Hdecl. induction is1 as [|i is1 IH]; simpl.
  - rewrite Hd, (declaration_not_open _ Hdecl), Hdecl. reflexivity.
  - destruct (H1 i (or_introl eq_refl)) as (l & -> & ->).
    destruct (is_declaration l); [reflexivity|].
    apply IH. in_tail H1.
Qed.

(** A failed forward search gives False: the backward scan goes on, and
    every later guard-open line repeats the same forward search. *)
Lemma scan_back_no_close (is_ : list Z) :
  (forall i, In i is_ -> (0 <= i < len)%Z) ->
  ahead = Some false ->
  scan_back lines idx is_ = Some false.
Proof.
  intros Hv Ha. induction is_ as [|i is_ IH]; simpl; [reflexivity|].
  destruct (getitem_valid i) as [l ->]; [apply Hv; now left|].
  fold len. fold ahead. rewrite Ha.
  destruct (is_guard_open l), (is_declaration l); try reflexivity;
    apply IH; in_tail Hv.
Qed.

End Detector.

(** ** is_already_wrapped on a line index of the file *)

Section Wrapped.

Variable lines : list string.
Variable idx : nat.
Hypothesis idx_in : idx < List.length lines.

(** The indices of the backward loop are line numbers from 1 up to
    [idx - 1], those of the forward loop from [idx + 1] on. *)
Lemma backward_indices (i : Z) :
  In i (range_down (Z.of_nat idx - 1) (Z.max 0 (Z.of_nat idx - 10))) ->
  (1 <= i < Z.of_nat idx)%Z /\ (Z.of_nat idx - 10 < i)%Z.
Proof. rewrite in_range_down. lia. Qed.

Lemma forward_indices (j : Z) :
  In j (range (Z.of_nat idx + 1)
          (Z.min (Z.of_nat (List.length lines)) (Z.of_nat idx + 10))) ->
  (Z.of_nat idx < j < Z.of_nat (List.length lines))%Z
  /\ (j < Z.of_nat idx + 10)%Z.
Proof. rewrite in_range. lia. Qed.

Lemma is_already_wrapped_total :
  exists b, is_already_wrapped lines idx = Some b.
Proof.
  unfold is_already_wrapped. apply scan_back_total.
  - intros i Hi. apply backward_indices in Hi. lia.
  - apply endif_ahead_total. intros j Hj. apply forward_indices in Hj. lia.
Qed.

Lemma getitem_line (i : Z) :
  (0 <= i < Z.of_nat (List.length lines))%Z ->
  exists l, nth_error lines (Z.to_nat i) = Some l
            /\ getitem lines i = Some l.
Proof.
  intros H. destruct (getitem_valid lines i H) as [l Hl].
  exists l. split; [|exact Hl].
  rewrite <- (Z2Nat.id i) in Hl by lia. now rewrite getitem_nat in Hl.
Qed.

(** True: a guard-open line [p] in the backward window, no declaration
    line between it and [idx], a guard-close line [q] in the forward
    window. *)
Lemma is_already_wrapped_true (p q : nat) (lp lq : string) :
  1 <= p -> p < idx -> idx < p + 10 ->
  nth_error lines p = Some lp -> is_guard_open lp = true ->
  (forall r l, p < r < idx -> nth_error lines r = Some l ->
               is_declaration l = false) ->
  idx < q -> q < idx + 10 ->
  nth_error lines q = Some lq -> is_guard_close lq = true ->
  is_already_wrapped lines idx = Some true.
Proof.
  intros Hp1 Hp2 Hp3 Hlp Hop Hmid Hq1 Hq2 Hlq Hcl.
  assert (Hqlen : q < List.length lines)
    by (apply nth_error_Some; congruence).
  unfold is_already_wrapped.
  rewrite (range_down_split _ _ (Z.of_nat p)) by lia.
  apply scan_back_true with (lp := lp).
  - intros i Hi. apply in_range_down in Hi.
    destruct (getitem_line i) as (l & Hn & Hg); [lia|].
    exists l. split; [exact Hg|].
    apply (Hmid (Z.to_nat i)); [lia|exact Hn].
  - now rewrite getitem_nat.
  - exact Hop.
  - apply endif_ahead_true with (q := Z.of_nat q) (lq := lq).
    + intros j Hj. apply forward_indices in Hj. lia.
    + apply in_range. lia.
    + now rewrite getitem_nat.
    + exact Hcl.
Qed.

(** False: no guard-open line in the backward window. *)
Lemma is_already_wrapped_no_open :
  (forall r l, 1 <= r < idx -> idx < r + 10 ->
               nth_error lines r = Some l -> is_guard_open l = false) ->
  is_already_wrapped lines idx = Some false.
Proof.
  intros H. unfold is_already_wrapped. apply scan_back_no_open.
  intros i Hi. apply backward_indices in Hi.
  destruct (getitem_line i) as (l & Hn & Hg); [lia|].
  exists l. split; [exact Hg|].
  apply (H (Z.to_nat i)); [lia|lia|exact Hn].
Qed.

(** False: no guard-close line in the forward window. *)
Lemma is_already_wrapped_no_close :
  (forall r l, idx < r -> r < idx + 10 ->
               nth_error lines r = Some l -> is_guard_close l = false) ->
  is_already_wrapped lines idx = Some false.
Proof.
  intros H. unfold is_already_wrapped. apply scan_back_no_close.
  - intros i Hi. apply backward_indices in Hi. lia.
  - apply endif_ahead_false. intros j Hj. apply forward_indices in Hj.
    destruct (getitem_line j) as (l & Hn & Hg); [lia|].
    exists l. split; [exact Hg|].
    apply (H (Z.to_nat j)); [lia|lia|exact Hn].
Qed.

(** False: a declaration line [d] before [idx] with no guard-open line
    between the two. *)
Lemma is_already_wrapped_declaration (d : nat) (ld : string) :
  d < idx -> nth_error lines d = Some ld -> is_declaration ld = true ->
  (forall r l, d < r < idx -> nth_error lines r = Some l ->
               is_guard_open l = false) ->
  is_already_wrapped lines idx = Some false.
Proof.
  intros Hd Hld Hdecl Hmid.
  destruct (Z_lt_le_dec (Z.max 0 (Z.of_nat idx - 10)) (Z.of_nat d))
    as [Hin|Hout].
  - unfold is_already_wrapped.
    rewrite (range_down_split _ _ (Z.of_nat d)) by lia.
    apply scan_back_declaration with (ld := ld).
    + intros i Hi. apply in_range_down in Hi.
      destruct (getitem_line i) as (l & Hn & Hg); [lia|].
      exists l. split; [exact Hg|].
      apply (Hmid (Z.to_nat i)); [lia|exact Hn].
    + now rewrite getitem_nat.
    + exact Hdecl.
  - apply is_already_wrapped_no_open.
    intros r l Hr1 Hr2 Hn. apply (Hmid r); [lia|exact Hn].
Qed.

End Wrapped.

(** ** The statement-end locator as a scan of one character stream *)

Section Locator.

Lemma append_assoc_str (s t u : string) : ((s ++ t) ++ u = s ++ (t ++ u))%string.
Proof. induction s as [|c s IH]; simpl; [reflexivity|now rewrite IH]. Qed.

Lemma chars_of_cons (l : string) (ls : list string) :
  chars_of (l :: ls) = (l ++ chars_of ls)%string.
Proof.
  unfold chars_of. destruct ls as [|l' ls]; simpl.
  - induction l as [|c l IH]; simpl; [reflexivity|now rewrite <- IH].
  - reflexivity.
Qed.

Lemma feed_append (st : scan_state) (s t : string) :
  feed st (s ++ t) = feed (feed st s) t.
Proof. revert st. induction s as [|c s IH]; intros st; simpl; auto. Qed.

Lemma scan_char_Return (st : scan_state) (c : ascii) :
  scan_char st c = Return <->
  c = ")"%char /\ closes_at st EmptyString.
Proof.
  unfold closes_at, scan_char. simpl.
  destruct st as [n q e]. simpl.
  destruct e; [split; [discriminate|intros (_ & ? & _); discriminate]|].
  destruct (Ascii.eqb_spec c "\") as [->|Hb];
    [split; [discriminate|intros (? & _); discriminate]|].
  destruct (Ascii.eqb_spec c dquote) as [->|Hq]; simpl.
  - destruct q; simpl; split; try discriminate;
      intros (? & _); discriminate.
  - destruct q; simpl;
      [split; [discriminate|intros (_ & _ & ? & _); discriminate]|].
    destruct (Ascii.eqb_spec c "(") as [->|Ho];
      [split; [discriminate|intros (? & _); discriminate]|].
    destruct (Ascii.eqb_spec c ")") as [->|Hc].
    + destruct (Z.eqb_spec (n - 1) 0) as [Hz|Hz]; split; intros H.
      * repeat split. lia.
      * reflexivity.
      * discriminate.
      * exfalso. destruct H as (_ & _ & _ & H). lia.
    + split; [discriminate|intros (? & _); congruence].
Qed.

Lemma scan_char_Next (st st' : scan_state) (c : ascii) :
  scan_char st c = Next st' -> advance st c = st'.
Proof. unfold advance. now intros ->. Qed.

(** A line that does not return leaves the state of all its
    characters. *)
Lemma scan_line_Next (st st' : scan_state) (s : string) :
  scan_line st s = Next st' -> st' = feed st s.
Proof.
  revert st. induction s as [|c s IH]; intros st; simpl.
  - congruence.
  - destruct (scan_char st c) as [st1|] eqn:E; [|discriminate].
    intros H. rewrite (scan_char_Next _ _ _ E). now apply IH.
Qed.

(** A line returns exactly when it holds a closing point. *)
Lemma scan_line_Return (st : scan_state) (s : string) :
  scan_line st s = Return <->
  exists pre post, s = (pre ++ String ")" post)%string /\ closes_at st pre.
Proof.
  split.
  - revert st. induction s as [|c s IH]; intros st; simpl; [discriminate|].
    destruct (scan_char st c) as [st1|] eqn:E.
    + intros H. destruct (IH _ H) as (pre & post & -> & Hc).
      exists (String c pre), post. split; [reflexivity|].
      unfold closes_at in *. simpl.
      now rewrite (scan_char_Next _ _ _ E).
    + intros _. apply scan_char_Return in E. destruct E as [-> Hc].
      exists EmptyString, s. split; [reflexivity|exact Hc].
  - intros (pre & post & -> & Hc). revert st Hc.
    induction pre as [|c pre IH]; intros st Hc; simpl.
    + replace (scan_char st ")") with Return; [reflexivity|].
      symmetry. apply scan_char_Return. split; [reflexivity|exact Hc].
    + destruct (scan_char st c) as [st1|] eqn:E; [|reflexivity].
      apply IH. unfold closes_at in *. simpl in Hc.
      now rewrite (scan_char_Next _ _ _ E) in Hc.
Qed.

(** No closing point in the stream: the loop over the lines ends without
    a return. *)
Lemma scan_lines_None (st : scan_state) (idx : nat) (rest : list string) :
  (forall s1 s2, chars_of rest = (s1 ++ String ")" s2)%string ->
                 ~ closes_at st s1) ->
  scan_lines st idx rest = None.
Proof.
  revert st idx. induction rest as [|l rest IH]; intros st idx H; simpl;
    [reflexivity|].
  destruct (scan_line st l) as [st1|] eqn:E.
  - apply scan_line_Next in E. subst st1. apply IH.
    intros s1 s2 Hs Hc. apply (H (l ++ s1)%string s2).
    + rewrite chars_of_cons, Hs. now rewrite append_assoc_str.
    + unfold closes_at in *. now rewrite feed_append.
  - apply scan_line_Return in E. destruct E as (pre & post & -> & Hc).
    exfalso. apply (H pre (post ++ chars_of rest)%string); [|exact Hc].
    rewrite chars_of_cons, append_assoc_str. reflexivity.
Qed.

(** The first closing point lies on line [k] of [rest]: the loop returns
    there. *)
Lemma scan_lines_first_close (st : scan_state) (idx k : nat)
      (rest : list string) (pre post : string) :
  nth_error rest k = Some (pre ++ String ")" post)%string ->
  closes_at st (chars_of (firstn k rest) ++ pre) ->
  (forall s1 s2,
      (chars_of (firstn k rest) ++ pre = s1 ++ String ")" s2)%string ->
      ~ closes_at st s1) ->
  scan_lines st idx rest = Some (idx + k).
Proof.
  revert st idx rest.
  induction k as [|k IH]; intros st idx rest Hk Hc Hfirst.
  - destruct rest as [|l rest]; [discriminate|].
    simpl in Hk. injection Hk as ->. simpl in Hc. simpl.
    replace (scan_line st (pre ++ String ")" post)) with Return.
    + f_equal. lia.
    + symmetry. apply scan_line_Return. eauto.
  - destruct rest as [|l rest]; [discriminate|].
    simpl in Hk. simpl firstn in Hc, Hfirst.
    rewrite chars_of_cons, append_assoc_str in Hc, Hfirst.
    simpl. destruct (scan_line st l) as [st1|] eqn:E.
    + apply scan_line_Next in E. subst st1.
      replace (idx + S k) with (S idx + k) by lia.
      apply IH; [exact Hk| |].
      * unfold closes_at in *. now rewrite feed_append in Hc.
      * intros s1 s2 Hs Hc1. apply (Hfirst (l ++ s1)%string s2).
        -- rewrite Hs. now rewrite append_assoc_str.
        -- unfold closes_at in *. now rewrite feed_append.
    + exfalso. apply scan_line_Return in E.
      destruct E as (p1 & p2 & -> & Hc1).
      apply (Hfirst p1 (p2 ++ chars_of (firstn k rest) ++ pre)%string);
        [|exact Hc1].
      now rewrite !append_assoc_str.
Qed.

(** Where a closing parenthesis falls in [l ++ y]: in [l], or in [y]. *)
Lemma append_split (l y s1 s2 : string) (c : ascii) :
  (l ++ y = s1 ++ String c s2)%string ->
  (exists t, l = (s1 ++ String c t)%string)
  \/ (exists s1', s1 = (l ++ s1')%string /\ y = (s1' ++ String c s2)%string).
Proof.
  revert s1. induction l as [|a l IH]; intros s1 H.
  - right. exists s1. split; [reflexivity|exact H].
  - destruct s1 as [|b s1]; simpl in H; injection H as -> H.
    + left. exists l. reflexivity.
    + destruct (IH _ H) as [[t ->]|(s1' & -> & ->)].
      * left. exists t. reflexivity.
      * right. exists s1'. split; reflexivity.
Qed.

Lemma scan_line_append (st : scan_state) (s t : string) :
  scan_line st (s ++ t)
  = match scan_line st s with
    | Next st' => scan_line st' t
    | Return => Return
    end.
Proof.
  revert st. induction s as [|c s IH]; intros st; simpl; [reflexivity|].
  destruct (scan_char st c); [apply IH|reflexivity].
Qed.

(** Inside a quoted region, text without quote and backslash leaves the
    state as it is, parentheses included. *)
Lemma scan_line_quoted_text (n : Z) (s : string) :
  is_quoted_text s = true ->
  scan_line (mkScan n true false) s = Next (mkScan n true false).
Proof.
  induction s as [|c s IH]; simpl; [reflexivity|].
  intros H. apply andb_prop in H. destruct H as [H Hs].
  apply andb_prop in H. destruct H as [Hq Hb].
  unfold scan_char. simpl.
  destruct (Ascii.eqb c "\"); [discriminate|].
  destruct (Ascii.eqb c dquote); [discriminate|].
  simpl. now apply IH.
Qed.

(** A line that returns does so at its first closing point. *)
Lemma scan_line_Return_first (st : scan_state) (s : string) :
  scan_line st s = Return ->
  exists pre post,
    s = (pre ++ String ")" post)%string /\ closes_at st pre
    /\ forall s1 s2, pre = (s1 ++ String ")" s2)%string -> ~ closes_at st s1.
Proof.
  revert st. induction s as [|c s IH]; intros st; simpl; [discriminate|].
  destruct (scan_char st c) as [st1|] eqn:E.
  - intros H. destruct (IH _ H) as (pre & post & -> & Hc & Hfirst).
    pose proof (scan_char_Next _ _ _ E) as Ha.
    exists (String c pre), post. split; [reflexivity|]. split.
    + unfold closes_at in *. simpl. now rewrite Ha.
    + intros s1 s2 Hs Hc1. destruct s1 as [|b s1]; simpl in Hs.
      * injection Hs as -> _.
        assert (scan_char st ")" = Return)
          by (apply scan_char_Return; split; [reflexivity|exact Hc1]).
        congruence.
      * injection Hs as <- Hs. apply (Hfirst s1 s2 Hs).
        unfold closes_at in *. simpl in Hc1. now rewrite Ha in Hc1.
  - intros _. apply scan_char_Return in E. destruct E as [-> Hc].
    exists EmptyString, s. split; [reflexivity|]. split; [exact Hc|].
    intros [|b s1] s2 Hs; discriminate.
Qed.

(** What the loop over the lines computes: the line of the first closing
    point of the stream, or nothing when the stream has none. *)
Lemma scan_lines_spec (st : scan_state) (idx : nat) (rest : list string) :
  match scan_lines st idx rest with
  | Some e =>
      exists k pre post,
        e = idx + k
        /\ nth_error rest k = Some (pre ++ String ")" post)%string
        /\ closes_at st (chars_of (firstn k rest) ++ pre)
        /\ forall s1 s2,
             (chars_of (firstn k rest) ++ pre = s1 ++ String ")" s2)%string ->
             ~ closes_at st s1
  | None =>
      forall s1 s2, chars_of rest = (s1 ++ String ")" s2)%string ->
                    ~ closes_at st s1
  end.
Proof.
  revert st idx. induction rest as [|l rest IH]; intros st idx; simpl.
  - intros [|b s1] s2 Hs; discriminate.
  - destruct (scan_line st l) as [st1|] eqn:E.
    + assert (Hl : forall s1 t, l = (s1 ++ String ")" t)%string ->
                                ~ closes_at st s1).
      { intros s1 t -> Hc.
        assert (scan_line st (s1 ++ String ")" t) = Return)
          by (apply scan_line_Return; eauto).
        congruence. }
      apply scan_line_Next in E. subst st1.
      specialize (IH (feed st l) (S idx)).
      destruct (scan_lines (feed st l) (S idx) rest) as [e|].
      * destruct IH as (k & pre & post & -> & Hk & Hc & Hfirst).
        exists (S k), pre, post. split; [lia|]. split; [exact Hk|].
        simpl firstn. rewrite chars_of_cons, append_assoc_str. split.
        -- unfold closes_at in *. now rewrite feed_append.
        -- intros s1 s2 Hs Hc1.
           destruct (append_split _ _ _ _ _ Hs) as [[t Ht]|(s1' & -> & Hy)].
           ++ exact (Hl s1 t Ht Hc1).
           ++ apply (Hfirst s1' s2 Hy).
              unfold closes_at in *. now rewrite feed_append in Hc1.
      * intros s1 s2 Hs Hc1. rewrite chars_of_cons in Hs.
        destruct (append_split _ _ _ _ _ Hs) as [[t Ht]|(s1' & -> & Hy)].
        -- exact (Hl s1 t Ht Hc1).
        -- apply (IH s1' s2 Hy).
           unfold closes_at in *. now rewrite feed_append in Hc1.
    + destruct (scan_line_Return_first _ _ E)
        as (pre & post & -> & Hc & Hfirst).
      exists 0, pre, post. split; [lia|]. split; [reflexivity|].
      simpl. split; [exact Hc|exact Hfirst].
Qed.

Lemma scan_lines_bounds (st : scan_state) (idx e : nat)
      (rest : list string) :
  scan_lines st idx rest = Some e -> idx <= e < idx + List.length rest.
Proof.
  revert st idx. induction rest as [|l rest IH]; intros st idx; simpl;
    [discriminate|].
  destruct (scan_line st l) as [st1|].
  - intros H. apply IH in H. lia.
  - intros H. injection H as <-. lia.
Qed.

Lemma find_print_end_bounds (lines : list string) (i : nat) :
  i < List.length lines ->
  i <= find_print_end lines i < List.length lines.
Proof.
  intros Hi. unfold find_print_end.
  destruct (scan_lines scan_init i (skipn i lines)) as [e|] eqn:E; [|lia].
  apply scan_lines_bounds in E. rewrite length_skipn in E. lia.
Qed.

End Locator.

(** ** The rewriter's loop as a relation *)

Section Loop.

Variable lines : list string.

Lemma wrap_loop_Emits (fuel : nat) (st : wrap_state) :
  List.length lines - cursor st <= fuel ->
  exists out n c,
    Emits lines (cursor st) out n
    /\ wrap_loop fuel lines st
       = Some (mkWrap c (new_lines st ++ out) (changes_made st + n)).
Proof.
  revert st. induction fuel as [|fuel IH]; intros [i acc ch] Hf;
    simpl in Hf; cbn [wrap_loop cursor].
  - destruct (Nat.ltb_spec i (List.length lines)); [lia|].
    exists [], 0, i. split; [now constructor|].
    simpl. now rewrite app_nil_r, Nat.add_0_r.
  - destruct (Nat.ltb_spec i (List.length lines)) as [Hi|Hi].
    2:{ exists [], 0, i. split; [now constructor|].
        simpl. now rewrite app_nil_r, Nat.add_0_r. }
    unfold wrap_body. cbn [cursor new_lines changes_made].
    destruct (nth_error lines i) as [line|] eqn:Hl;
      [|apply nth_error_None in Hl; lia].
    assert (Hpass :
      is_candidate line = false \/ is_already_wrapped lines i = Some true ->
      exists out n c,
        Emits lines i out n
        /\ wrap_loop fuel lines (mkWrap (i + 1) (acc ++ [line]) ch)
           = Some (mkWrap c (acc ++ out) (ch + n))).
    { intros Hwhy.
      destruct (IH (mkWrap (i + 1) (acc ++ [line]) ch))
        as (out & n & c & He & Hw); [simpl; lia|].
      cbn [cursor new_lines changes_made] in He, Hw.
      exists (line :: out), n, c. split.
      - apply Emits_pass; auto. now rewrite Nat.add_1_r in He.
      - rewrite Hw. now rewrite <- app_assoc. }
    destruct (is_candidate line) eqn:Hc; [|apply Hpass; now left].
    destruct (is_already_wrapped_total lines i Hi) as [[|] Hw].
    + rewrite Hw. apply Hpass. now right.
    + rewrite Hw.
      pose proof (find_print_end_bounds lines i Hi) as Hb.
      set (e := find_print_end lines i) in *.
      set (ind := get_indentation line).
      destruct (IH (mkWrap (e + 1)
                      (acc ++ [guard_open ind] ++ slice lines i e
                           ++ [guard_close ind]) (ch + 1)))
        as (out & n & c & He & Hw'); [simpl; lia|].
      cbn [cursor new_lines changes_made] in He, Hw'.
      exists (guard_open ind :: slice lines i e ++ guard_close ind :: out),
        (S n), c.
      split.
      * apply Emits_wrap; auto. now rewrite Nat.add_1_r in He.
      * rewrite Hw'. f_equal. f_equal; [|lia].
        rewrite <- !app_assoc. reflexivity.
Qed.

(** The transform is total, and [Emits] describes its result. *)
Lemma wrap_prints_Emits :
  exists out n, wrap_prints_in_file lines = Some (out, n) /\ Emits lines 0 out n.
Proof.
  destruct (wrap_loop_Emits (List.length lines) (mkWrap 0 [] 0))
    as (out & n & c & He & Hw); [simpl; lia|].
  exists out, n. unfold wrap_prints_in_file. rewrite Hw. simpl. split; auto.
Qed.


Lemma skipn_nth_error (i : nat) (line : string) :
  nth_error lines i = Some line ->
  skipn i lines = line :: skipn (S i) lines.
Proof.
  revert i. induction lines as [|l ls IH]; intros [|i]; simpl;
    try discriminate.
  - now intros [= ->].
  - intros H. now apply IH.
Qed.

(** The lines of a block and the lines after it make up the rest of the
    file. *)
Lemma slice_skipn (i e : nat) :
  i <= e -> skipn i lines = slice lines i e ++ skipn (S e) lines.
Proof.
  intros H. unfold slice.
  rewrite <- (firstn_skipn (e + 1 - i) (skipn i lines)) at 1.
  f_equal. rewrite skipn_skipn. f_equal. lia.
Qed.

Lemma slice_first (i e : nat) (line : string) :
  i <= e -> nth_error lines i = Some line ->
  exists span, slice lines i e = line :: span.
Proof.
  intros H Hl. unfold slice. rewrite (skipn_nth_error i line Hl).
  replace (e + 1 - i) with (S (e - i)) by lia. simpl. eauto.
Qed.

Lemma slice_incl (i e : nat) (l : string) :
  In l (slice lines i e) -> In l lines.
Proof.
  unfold slice. intros H.
  rewrite <- (firstn_skipn i lines). apply in_or_app. right.
  rewrite <- (firstn_skipn (e + 1 - i) (skipn i lines)).
  apply in_or_app. now left.
Qed.

End Loop.

(** ** Frame: what the rewriter leaves and what it adds *)

Section Frame.

Lemma Interleaved_keep_app (span input output : list string) :
  Interleaved input output -> Interleaved (span ++ input) (span ++ output).
Proof.
  intros H. induction span as [|l span IH]; simpl; [exact H|].
  now constructor.
Qed.


Lemma Emits_interleaved (lines : list string) (i : nat)
      (out : list string) (n : nat) :
  Emits lines i out n ->
  Interleaved (skipn i lines) out
  /\ List.length out = List.length (skipn i lines) + 2 * n.
Proof.
  induction 1 as [i Hi|i line out n Hl Hwhy He [IH1 IH2]
                  |i line out n Hl Hc Hw He [IH1 IH2]].
  - rewrite skipn_all2 by exact Hi. split; [constructor|reflexivity].
  - rewrite (skipn_nth_error lines i line Hl). split.
    + now constructor.
    + cbn [List.length]. lia.
  - assert (Hi : i < List.length lines)
      by (apply nth_error_Some; congruence).
    pose proof (find_print_end_bounds lines i Hi) as Hb.
    rewrite (slice_skipn lines i (find_print_end lines i)) by lia. split.
    + apply Interleaved_insert; [constructor|].
      apply Interleaved_keep_app.
      apply Interleaved_insert; [constructor|exact IH1].
    + cbn [List.length]. rewrite !length_app. cbn [List.length]. lia.
Qed.

End Frame.

(** C9. Frame/preservation: for every input file the transform returns an
    output that holds every input line once, in the original order and
    unchanged (a line is its whole text, the trailing newline included); the
    lines of the output that are not input lines are inserted guard-open
    and guard-close marker lines, two for each change counted. *)
Theorem wrap_prints_frame (lines : list string) :
  exists out n,
    wrap_prints_in_file lines = Some (out, n)
    /\ Interleaved lines out
    /\ List.length out = List.length lines + 2 * n.
Proof.
  destruct (wrap_prints_Emits lines) as (out & n & Hw & He).
  exists out, n. split; [exact Hw|].
  apply Emits_interleaved in He. exact He.
Qed.

(** ** Guard pairing *)

Section Pairing.

Lemma open_not_close (l : string) :
  is_guard_open l = true -> is_guard_close l = false.
Proof.
  unfold is_guard_open, is_guard_close.
  destruct (strip l) as [|a s]; [discriminate|].
  cbn [startswith].
  destruct (Ascii.eqb_spec "#" a) as [<-|Ha]; [|discriminate].
  destruct s as [|b s]; [discriminate|].
  cbn [startswith].
  destruct (Ascii.eqb_spec "i" b) as [<-|Hb]; [|discriminate].
  reflexivity.
Qed.

Lemma Emits_paired (lines : list string) (i : nat)
      (out : list string) (n : nat) :
  (forall l, In l lines -> plain l) ->
  Emits lines i out n -> Paired out.
Proof.
  intros Hplain.
  induction 1 as [i Hi|i line out n Hl Hwhy He IH
                  |i line out n Hl Hc Hw He IH].
  - constructor.
  - constructor; [|exact IH]. apply Hplain. eapply nth_error_In; eauto.
  - assert (Hi : i < List.length lines)
      by (apply nth_error_Some; congruence).
    pose proof (find_print_end_bounds lines i Hi) as Hb.
    destruct (slice_first lines i (find_print_end lines i) line)
      as [span Hs]; [lia|exact Hl|].
    rewrite Hs. apply Paired_block.
    + apply guard_open_is_open.
    + apply guard_close_is_close.
    + rewrite <- Hs. apply Forall_forall. intros l Hin.
      apply Hplain. eapply slice_incl; eauto.
    + apply get_indentation_guard_open.
    + apply get_indentation_guard_close.
    + exact IH.
Qed.

(** In a paired sequence a guard-close line has a guard-open line before
    it. *)
Lemma Paired_close_after_open (out : list string) (r : nat) (l : string) :
  Paired out -> nth_error out r = Some l -> is_guard_close l = true ->
  exists p o, p < r /\ nth_error out p = Some o /\ is_guard_open o = true.
Proof.
  intros HP. revert r.
  induction HP as [|l0 rest [Ho Hc] HP IH
                   |o first c span rest Ho Hc Hpl Hi1 Hi2 HP IH];
    intros r Hr Hcl.
  - destruct r; discriminate.
  - destruct r as [|r]; simpl in Hr.
    + injection Hr as ->. congruence.
    + destruct (IH r Hr Hcl) as (p & o & Hp & Hn & Hop).
      exists (S p), o. repeat split; [lia|exact Hn|exact Hop].
  - destruct r as [|r]; simpl in Hr.
    + injection Hr as ->. rewrite (open_not_close _ Ho) in Hcl.
      discriminate.
    + exists 0, o. repeat split; [lia|exact Ho].
Qed.

Lemma paired_at_shift (l0 : string) (out : list string) (p q : nat) :
  paired_at out p q -> paired_at (l0 :: out) (S p) (S q).
Proof.
  intros (H1 & (first & c & Hf & Hc & Hcl & Hio & Hic) & Hmid & Hafter).
  split; [lia|]. split; [|split].
  - exists first, c. repeat split; auto.
  - intros r l Hr Hn. destruct r as [|r]; [lia|]. simpl in Hn.
    apply (Hmid r l); [lia|exact Hn].
  - intros r l Hr Hn Hcl'. destruct r as [|r]; [lia|]. simpl in Hn.
    destruct (Hafter r l) as (p' & o' & Hp' & Hn' & Ho'); auto; [lia|].
    exists (S p'), o'. repeat split; [lia|lia|exact Hn'|exact Ho'].
Qed.

Lemma paired_at_shift_app (pre out : list string) (p q : nat) :
  paired_at out p q ->
  paired_at (pre ++ out) (List.length pre + p) (List.length pre + q).
Proof.
  intros H. induction pre as [|l0 pre IH]; simpl; [exact H|].
  now apply paired_at_shift.
Qed.

(** Indexing into a block [o :: blk ++ c :: rest]. *)
Lemma nth_block_mid (o c : string) (blk rest : list string) (r : nat) :
  1 <= r <= List.length blk ->
  nth_error (o :: blk ++ c :: rest) r = nth_error blk (r - 1).
Proof.
  intros H. destruct r as [|r]; [lia|]. cbn [nth_error].
  rewrite nth_error_app1 by lia. f_equal. lia.
Qed.

Lemma nth_block_close (o c : string) (blk rest : list string) :
  nth_error (o :: blk ++ c :: rest) (S (List.length blk)) = Some c.
Proof.
  cbn [nth_error]. rewrite nth_error_app2 by lia.
  now rewrite Nat.sub_diag.
Qed.

Lemma nth_block_rest (o c : string) (blk rest : list string) (r : nat) :
  S (List.length blk) < r ->
  nth_error (o :: blk ++ c :: rest) r
  = nth_error rest (r - S (S (List.length blk))).
Proof.
  intros H. destruct r as [|r]; [lia|]. cbn [nth_error].
  rewrite nth_error_app2 by lia.
  replace (r - List.length blk) with (S (r - S (List.length blk))) by lia.
  reflexivity.
Qed.

(** In a paired sequence every guard-open line has its guard-close
    line. *)
Lemma Paired_paired_at (out : list string) (p : nat) (o : string) :
  Paired out -> nth_error out p = Some o -> is_guard_open o = true ->
  exists q, paired_at out p q.
Proof.
  intros HP. revert p.
  induction HP as [|l0 rest [Ho Hc] HP IH
                   |o1 first c span rest Ho Hc Hpl Hi1 Hi2 HP IH];
    intros p Hp Hop.
  - destruct p; discriminate.
  - destruct p as [|p]; simpl in Hp.
    + injection Hp as ->. congruence.
    + destruct (IH p Hp Hop) as [q Hq].
      exists (S q). now apply paired_at_shift.
  - assert (Hfirst : nth_error (first :: span) 0 = Some first)
      by reflexivity.
    assert (Hk : 1 <= List.length (first :: span)) by (simpl; lia).
    remember (first :: span) as blk eqn:Hblk. clear Hblk.
    set (k := List.length blk) in *.
    assert (Hmidplain : forall r l, 1 <= r < S k ->
              nth_error (o1 :: blk ++ c :: rest) r = Some l -> plain l).
    { intros r l Hr Hn. rewrite nth_block_mid in Hn by (fold k; lia).
      rewrite Forall_forall in Hpl. apply Hpl.
      eapply nth_error_In; eauto. }
    pose proof (nth_block_close o1 c blk rest) as Hcat. fold k in Hcat.
    destruct (Nat.eq_dec p 0) as [->|Hp0].
    + exists (S k). split; [lia|]. split; [|split].
      * exists first, c. repeat split; auto.
        -- replace (0 + 1) with 1 by lia.
           rewrite nth_block_mid by (fold k; lia). exact Hfirst.
        -- intros o' Ho'. simpl in Ho'. injection Ho' as <-. exact Hi1.
      * intros r l Hr Hn. apply (Hmidplain r l); [lia|exact Hn].
      * intros r l Hr Hn Hcl.
        rewrite nth_block_rest in Hn by (fold k; lia). fold k in Hn.
        destruct (Paired_close_after_open rest _ l HP Hn Hcl)
          as (p' & o' & Hp' & Hno & Hoo).
        exists (S (S k) + p'), o'. repeat split; [lia|lia| |exact Hoo].
        rewrite nth_block_rest by (fold k; lia). fold k.
        replace (S (S k) + p' - S (S k)) with p' by lia. exact Hno.
    + destruct (Nat.lt_ge_cases p (S k)) as [Hlt|Hge].
      { destruct (Hmidplain p o) as [Hx _]; [lia|exact Hp|]. congruence. }
      destruct (Nat.eq_dec p (S k)) as [->|Hpk].
      { rewrite Hcat in Hp. injection Hp as ->.
        rewrite (open_not_close _ Hop) in Hc. discriminate. }
      rewrite nth_block_rest in Hp by (fold k; lia). fold k in Hp.
      destruct (IH _ Hp Hop) as [q Hq].
      exists (S (S k) + q).
      pose proof (paired_at_shift_app (o1 :: blk ++ [c]) rest _ _ Hq)
        as Hs.
      replace (List.length (o1 :: blk ++ [c])) with (S (S k))
        in Hs by (cbn [List.length]; rewrite length_app; simpl; lia).
      replace (S (S k) + (p - S (S k))) with p in Hs by lia.
      replace ((o1 :: blk ++ [c]) ++ rest)
        with (o1 :: blk ++ c :: rest) in Hs.
      * exact Hs.
      * simpl. now rewrite <- app_assoc.
Qed.

End Pairing.

(** C2. Guard pairing: for every input file that holds no guard marker
    line, the transform returns an output in which every guard-open line
    has exactly one guard-close line before the next guard-open line or the
    end of the file -- only plain lines lie between the two, and a later
    guard-close line has a guard-open line of its own -- and both markers
    are indented as the first line of the statement they enclose. *)
Theorem guard_pairing (lines : list string) :
  (forall l, In l lines -> plain l) ->
  exists out n,
    wrap_prints_in_file lines = Some (out, n)
    /\ forall p o, nth_error out p = Some o -> is_guard_open o = true ->
                   exists q, paired_at out p q.
Proof.
  intros Hplain.
  destruct (wrap_prints_Emits lines) as (out & n & Hw & He).
  exists out, n. split; [exact Hw|].
  intros p o Hp Ho.
  apply (Paired_paired_at out p o); auto.
  eapply Emits_paired; eauto.
Qed.

Lemma guard_pairing_witness :
  exists out n,
    wrap_prints_in_file indented_statement = Some (out, n)
    /\ forall p o, nth_error out p = Some o -> is_guard_open o = true ->
                   exists q, paired_at out p q.
Proof.
  apply guard_pairing.
  intros l H. unfold indented_statement in H. simpl in H.
  repeat (destruct H as [<-|H]; [split; reflexivity|]). destruct H.
Defined.

(** ** A second run *)

Section SecondRun.


(** When the detector reports every candidate line wrapped, the loop
    copies the file and counts no change. *)
Lemma Emits_all_wrapped (out : list string) (i : nat)
      (out' : list string) (n : nat) :
  (forall k l, nth_error out k = Some l -> is_candidate l = true ->
               is_already_wrapped out k = Some true) ->
  Emits out i out' n -> out' = skipn i out /\ n = 0.
Proof.
  intros Hall.
  induction 1 as [i Hi|i line out' n Hl Hwhy He [IH1 IH2]
                  |i line out' n Hl Hc Hw He IH].
  - now rewrite skipn_all2.
  - rewrite (skipn_nth_error out i line Hl). now subst.
  - rewrite (Hall i line Hl Hc) in Hw. discriminate.
Qed.

Lemma all_wrapped_noop (out : list string) :
  (forall k l, nth_error out k = Some l -> is_candidate l = true ->
               is_already_wrapped out k = Some true) ->
  wrap_prints_in_file out = Some (out, 0).
Proof.
  intros Hall. destruct (wrap_prints_Emits out) as (out' & n & Hw & He).
  apply (Emits_all_wrapped out 0 out' n Hall) in He.
  destruct He as [-> ->]. exact Hw.
Qed.

Variable lines : list string.

Hypothesis no_markers : forall l, In l lines -> plain l.

Hypothesis first_line :
  forall l, nth_error lines 0 = Some l -> is_candidate l = false.

Hypothesis short_statements :
  forall i l, nth_error lines i = Some l -> is_candidate l = true ->
              find_print_end lines i < i + 9.

Hypothesis no_declaration_inside :
  forall i j l l' r lr,
    nth_error lines i = Some l -> is_candidate l = true ->
    i < j <= find_print_end lines i ->
    nth_error lines j = Some l' -> is_candidate l' = true ->
    i <= r < j -> nth_error lines r = Some lr ->
    is_declaration lr = false.

Lemma input_not_wrapped (i : nat) :
  i < List.length lines -> is_already_wrapped lines i = Some false.
Proof.
  intros Hi. apply is_already_wrapped_no_open; [exact Hi|].
  intros r l _ _ Hn. apply no_markers. eapply nth_error_In; eauto.
Qed.



End SecondRun.

(** ** A second run: the claims *)

Example wrap_indented_statement :
  wrap_prints_in_file indented_statement =
  Some ([ ln "// header";
          ln "    #if DEBUG";
          ("    print(" ++ dq ++ "hi" ++ dq ++ ")" ++ nl)%string;
          ln "    #endif";
          ln "let x = 1" ], 1).
Proof. vm_compute. reflexivity. Qed.


(** Each of the other three conditions of the idempotence theorem below is
    needed: a statement on the first line, a declaration line inside a
    statement and guard markers already in the input each lead to a second
    run that wraps again. *)
Example second_run_wraps_again :
  (forall out n, wrap_prints_in_file statement_at_start = Some (out, n) ->
                 wrap_prints_in_file out <> Some (out, 0))
  /\ (forall out n, wrap_prints_in_file declaration_inside = Some (out, n) ->
                    wrap_prints_in_file out <> Some (out, 0))
  /\ (forall out n, wrap_prints_in_file stale_guard = Some (out, n) ->
                    wrap_prints_in_file out <> Some (out, 0)).
Proof.
  repeat split; intros out n H; vm_compute in H; injection H as <- <-;
    vm_compute; discriminate.
Qed.



(** ** The statement-end locator: the claims *)

Lemma close_prefixes_spec (s s1 s2 : string) :
  s = (s1 ++ String ")" s2)%string -> In s1 (close_prefixes s).
Proof.
  revert s. induction s1 as [|c s1 IH]; intros s ->; simpl.
  - now left.
  - apply in_or_app. right. apply in_map. now apply IH.
Qed.

(** C3. Escape- and quote-aware nesting: inside a quoted region an opening
    or a closing parenthesis leaves the state, the depth with it, as it is;
    a quote that follows an unescaped backslash clears the escape flag and
    toggles nothing, so that a backslash and a quote together leave the
    state as it is; and on every three-line statement of
    [escaped_quote_lines], whose string literal holds an escaped quote and a
    closing parenthesis, [escaped_quote_statement] among them,
    [find_print_end] returns the index of the third line. *)
Theorem quote_aware_nesting :
  (forall n, scan_char (mkScan n true false) "(" = Next (mkScan n true false))
  /\ (forall n,
         scan_char (mkScan n true false) ")" = Next (mkScan n true false))
  /\ (forall n q,
         scan_char (mkScan n q true) dquote = Next (mkScan n q false))
  /\ (forall n q,
         scan_line (mkScan n q false) ("\" ++ dq)
         = Next (mkScan n q false))
  /\ (forall a b,
         is_quoted_text a = true -> is_quoted_text b = true ->
         find_print_end (escaped_quote_lines a b) 0 = 2)
  /\ find_print_end escaped_quote_statement 0 = 2.
Proof.
  repeat split; intros; try reflexivity.
  unfold find_print_end, escaped_quote_lines. cbn [skipn scan_lines].
  change (scan_line scan_init (ln "print("))
    with (Next (mkScan 1 false false)).
  cbv iota.
  change ("  " ++ dq ++ a ++ "\" ++ dq ++ ")" ++ b ++ dq ++ "," ++ nl)%string
    with (String " " (String " " (String dquote
            (a ++ ("\" ++ dq ++ ")") ++ b ++ dq ++ ("," ++ nl)))))%string.
  change (scan_line (mkScan 1 false false)
            (String " " (String " " (String dquote
               (a ++ ("\" ++ dq ++ ")") ++ b ++ dq ++ ("," ++ nl))))))%string
    with (scan_line (mkScan 1 true false)
            (a ++ ("\" ++ dq ++ ")") ++ b ++ dq ++ ("," ++ nl)))%string.
  rewrite scan_line_append, scan_line_quoted_text by assumption.
  rewrite scan_line_append.
  change (scan_line (mkScan 1 true false) ("\" ++ dq ++ ")"))%string
    with (Next (mkScan 1 true false)).
  cbv iota.
  rewrite scan_line_append, scan_line_quoted_text by assumption.
  reflexivity.
Qed.

Lemma quote_aware_nesting_witness :
  find_print_end (escaped_quote_lines "say " " now") 0 = 2.
Proof.
  apply (proj1 (proj2 (proj2 (proj2 (proj2 quote_aware_nesting))))).
  - reflexivity.
  - reflexivity.
Defined.

(** C4, as stated, fails: on the first line of [reopened_line] the depth
    comes back to zero and is one again at the end of the line; the rule
    of the claim gives the second line, [find_print_end] the first. *)
Lemma find_print_end_not_line_end_rule :
  ~ (forall lines start_idx,
        find_print_end lines start_idx = line_end_rule lines start_idx).
Proof.
  intros H. specialize (H reopened_line 0). vm_compute in H. discriminate.
Qed.

(** C4, amended. Statement-end rule: [find_print_end] returns the index of
    the line that holds the first closing point of the character stream
    that starts at the start line -- the first closing parenthesis, neither
    escaped nor quoted, that is met at depth one -- whatever follows that
    parenthesis on its line; and the start index when the stream holds no
    closing point.  On the first line of [reopened_line] the depth is one
    again at the end of the line, and the line is returned. *)
Theorem find_print_end_first_close :
  (forall lines start_idx,
      (exists k pre post,
          nth_error lines (start_idx + k)
          = Some (pre ++ String ")" post)%string
          /\ closes_at scan_init
               (chars_of (firstn k (skipn start_idx lines)) ++ pre)
          /\ (forall s1 s2,
                 (chars_of (firstn k (skipn start_idx lines)) ++ pre
                  = s1 ++ String ")" s2)%string ->
                 ~ closes_at scan_init s1)
          /\ find_print_end lines start_idx = start_idx + k)
      \/ ((forall s1 s2,
              chars_of (skipn start_idx lines) = (s1 ++ String ")" s2)%string ->
              ~ closes_at scan_init s1)
          /\ find_print_end lines start_idx = start_idx))
  /\ find_print_end reopened_line 0 = 0
  /\ paren_count (feed scan_init (ln "print(a); foo(")) = 1%Z.
Proof.
  split; [|split; reflexivity].
  intros lines start_idx. unfold find_print_end.
  pose proof (scan_lines_spec scan_init start_idx (skipn start_idx lines))
    as H.
  destruct (scan_lines scan_init start_idx (skipn start_idx lines)) as [e|].
  - left. destruct H as (k & pre & post & -> & Hk & Hc & Hfirst).
    exists k, pre, post. rewrite nth_error_skipn in Hk. auto.
  - right. auto.
Qed.

Lemma find_print_end_first_close_witness :
  (exists k pre post,
      nth_error reopened_line (0 + k) = Some (pre ++ String ")" post)%string
      /\ closes_at scan_init
           (chars_of (firstn k (skipn 0 reopened_line)) ++ pre)
      /\ (forall s1 s2,
             (chars_of (firstn k (skipn 0 reopened_line)) ++ pre
              = s1 ++ String ")" s2)%string ->
             ~ closes_at scan_init s1)
      /\ find_print_end reopened_line 0 = 0 + k)
  \/ ((forall s1 s2,
          chars_of (skipn 0 reopened_line) = (s1 ++ String ")" s2)%string ->
          ~ closes_at scan_init s1)
      /\ find_print_end reopened_line 0 = 0).
Proof.
  exact (proj1 find_print_end_first_close reopened_line 0).
Defined.

(** The same rule, read from the stream to the result. *)
Lemma find_print_end_at_first_close
      (lines : list string) (start_idx k : nat) (pre post : string) :
  nth_error lines (start_idx + k) = Some (pre ++ String ")" post)%string ->
  closes_at scan_init
    (chars_of (firstn k (skipn start_idx lines)) ++ pre) ->
  (forall s1 s2,
      (chars_of (firstn k (skipn start_idx lines)) ++ pre
       = s1 ++ String ")" s2)%string ->
      ~ closes_at scan_init s1) ->
  find_print_end lines start_idx = start_idx + k.
Proof.
  intros Hk Hc Hfirst. unfold find_print_end.
  rewrite (scan_lines_first_close scan_init start_idx k
             (skipn start_idx lines) pre post); auto.
  now rewrite nth_error_skipn.
Qed.

Example find_print_end_escaped_quote :
  find_print_end escaped_quote_statement 0 = 0 + 2.
Proof.
  apply (find_print_end_at_first_close escaped_quote_statement 0 2
           EmptyString nl).
  - reflexivity.
  - vm_compute. auto.
  - intros s1 s2 H (_ & Hq & _). apply close_prefixes_spec in H.
    vm_compute in H. destruct H as [<-|[]]. vm_compute in Hq. discriminate.
Qed.

(** C5. Fail-soft on unterminated statements: when the character stream
    that starts at the start line holds no closing point, [find_print_end]
    returns the start index, and the rewriter, wrapping there, encloses the
    start line alone and moves the cursor to the next line. *)
Theorem find_print_end_fail_soft (lines : list string) (start_idx : nat) :
  (forall s1 s2,
      chars_of (skipn start_idx lines) = (s1 ++ String ")" s2)%string ->
      ~ closes_at scan_init s1) ->
  find_print_end lines start_idx = start_idx
  /\ forall line acc changes,
       nth_error lines start_idx = Some line ->
       is_candidate line = true ->
       is_already_wrapped lines start_idx = Some false ->
       wrap_body lines (mkWrap start_idx acc changes)
       = Some (mkWrap (start_idx + 1)
                 (acc ++ [guard_open (get_indentation line); line;
                          guard_close (get_indentation line)])
                 (changes + 1)).
Proof.
  intros H.
  assert (E : find_print_end lines start_idx = start_idx).
  { unfold find_print_end. now rewrite scan_lines_None. }
  split; [exact E|].
  intros line acc changes Hl Hc Hw. unfold wrap_body.
  cbn [cursor new_lines changes_made]. rewrite Hl, Hc, Hw, E.
  unfold slice. rewrite (skipn_nth_error lines start_idx line Hl).
  replace (start_idx + 1 - start_idx) with 1 by lia. reflexivity.
Qed.

Lemma find_print_end_fail_soft_witness :
  find_print_end unterminated_statement 1 = 1
  /\ forall line acc changes,
       nth_error unterminated_statement 1 = Some line ->
       is_candidate line = true ->
       is_already_wrapped unterminated_statement 1 = Some false ->
       wrap_body unterminated_statement (mkWrap 1 acc changes)
       = Some (mkWrap (1 + 1)
                 (acc ++ [guard_open (get_indentation line); line;
                          guard_close (get_indentation line)])
                 (changes + 1)).
Proof.
  apply (find_print_end_fail_soft unterminated_statement 1).
  intros s1 s2 H (_ & Hq & _). apply close_prefixes_spec in H.
  vm_compute in H. destruct H as [<-|[]]. vm_compute in Hq. discriminate.
Defined.

(** ** The wrap detector: the claims *)

(** C6. Declaration-boundary abort: when a declaration line lies before the
    candidate line and no guard-open line lies between the two,
    [is_already_wrapped] reports not wrapped; and on [boundary_sample] the
    print statement gets a guard pair of its own. *)
Theorem declaration_boundary_abort :
  (forall lines idx d ld,
      idx < List.length lines ->
      d < idx -> nth_error lines d = Some ld -> is_declaration ld = true ->
      (forall r l, d < r < idx -> nth_error lines r = Some l ->
                   is_guard_open l = false) ->
      is_already_wrapped lines idx = Some false)
  /\ wrap_prints_in_file boundary_sample
     = Some ([ ln "#if DEBUG"; ln "func report() {";
               ln "#if DEBUG";
               ("print(" ++ dq ++ "x" ++ dq ++ ")" ++ nl)%string;
               ln "#endif"; ln "#endif" ], 1).
Proof.
  split.
  - intros lines idx d ld Hi Hd Hld Hdecl Hmid.
    exact (is_already_wrapped_declaration lines idx Hi d ld Hd Hld Hdecl Hmid).
  - vm_compute. reflexivity.
Qed.

Lemma declaration_boundary_abort_witness :
  is_already_wrapped boundary_sample 2 = Some false.
Proof.
  apply (proj1 declaration_boundary_abort boundary_sample 2 1
           (ln "func report() {")).
  - simpl. lia.
  - lia.
  - reflexivity.
  - reflexivity.
  - intros r l Hr. lia.
Defined.

Section FirstLine.

Variables (l0 l0' : string) (rest : list string).

Lemma getitem_tail (j : Z) :
  (1 <= j)%Z -> getitem (l0 :: rest) j = getitem (l0' :: rest) j.
Proof.
  intros H. unfold getitem.
  destruct (Z.leb_spec 0 j); [|lia].
  replace (Z.to_nat j) with (S (Z.to_nat (j - 1))) by lia. reflexivity.
Qed.

Lemma endif_ahead_tail (js : list Z) :
  (forall j, In j js -> (1 <= j)%Z) ->
  endif_ahead (l0 :: rest) js = endif_ahead (l0' :: rest) js.
Proof.
  induction js as [|j js IH]; intros H; simpl; [reflexivity|].
  rewrite (getitem_tail j) by (apply H; now left).
  rewrite IH by (in_tail H). reflexivity.
Qed.

Lemma scan_back_tail (idx : Z) (is_ : list Z) :
  (0 <= idx)%Z -> (forall i, In i is_ -> (1 <= i)%Z) ->
  scan_back (l0 :: rest) idx is_ = scan_back (l0' :: rest) idx is_.
Proof.
  intros Hidx. induction is_ as [|i is_ IH]; intros H; simpl;
    [reflexivity|].
  rewrite (getitem_tail i) by (apply H; now left).
  rewrite IH by (in_tail H).
  rewrite endif_ahead_tail; [reflexivity|].
  intros j Hj. apply in_range in Hj. lia.
Qed.

(** The first line of the file has no part in the detector's answer. *)
Lemma first_line_ignored (idx : nat) :
  is_already_wrapped (l0 :: rest) idx = is_already_wrapped (l0' :: rest) idx.
Proof.
  unfold is_already_wrapped. apply scan_back_tail; [lia|].
  intros i Hi. apply in_range_down in Hi. lia.
Qed.

End FirstLine.

(** C7, on the code: the backward loop never reaches line 0, and each of
    the two windows holds nine lines, not ten.  The first line of the file
    has no part in the answer; a guard-open line on the first line,
    directly before the print statement, is not seen, so that the output of
    a first run on [statement_at_start] is wrapped again by a second run; a
    guard-open line ten lines before the candidate, or a guard-close line
    ten lines after it, is not seen, while at nine lines both are. *)
Theorem windows_hold_nine_lines :
  (forall l0 l0' rest idx,
      is_already_wrapped (l0 :: rest) idx
      = is_already_wrapped (l0' :: rest) idx)
  /\ wrap_prints_in_file statement_at_start = Some (guarded_at_start, 1)
  /\ is_already_wrapped guarded_at_start 1 = Some false
  /\ wrap_prints_in_file guarded_at_start
     = Some ([ ln "#if DEBUG"; ln "#if DEBUG"; ln "print(x)"; ln "#endif";
               ln "#endif" ], 1)
  /\ is_already_wrapped (guard_at_distance 10 1) 11 = Some false
  /\ is_already_wrapped (guard_at_distance 9 1) 10 = Some true
  /\ is_already_wrapped (guard_at_distance 1 10) 2 = Some false
  /\ is_already_wrapped (guard_at_distance 1 9) 2 = Some true.
Proof.
  split; [exact first_line_ignored|].
  repeat split; vm_compute; reflexivity.
Qed.

(** C10. The detector accepts unpaired markers: a guard-open line in the
    backward window with no declaration line between it and the candidate,
    and a guard-close line in the forward window, make [is_already_wrapped]
    report wrapped, whatever the two markers belong to and however they are
    indented; on [between_blocks] the print statement lies between two
    complete blocks, inside neither, and is reported wrapped. *)
Theorem unpaired_markers_accepted :
  (forall lines idx p q lp lq,
      idx < List.length lines ->
      1 <= p -> p < idx -> idx < p + 10 ->
      nth_error lines p = Some lp -> is_guard_open lp = true ->
      (forall r l, p < r < idx -> nth_error lines r = Some l ->
                   is_declaration l = false) ->
      idx < q -> q < idx + 10 ->
      nth_error lines q = Some lq -> is_guard_close lq = true ->
      is_already_wrapped lines idx = Some true)
  /\ is_already_wrapped between_blocks 4 = Some true
  /\ wrap_prints_in_file between_blocks = Some (between_blocks, 0).
Proof.
  split; [|split; vm_compute; reflexivity].
  intros lines idx p q lp lq Hi Hp1 Hp2 Hp3 Hlp Hop Hmid Hq1 Hq2 Hlq Hcl.
  exact (is_already_wrapped_true lines idx Hi p q lp lq
           Hp1 Hp2 Hp3 Hlp Hop Hmid Hq1 Hq2 Hlq Hcl).
Qed.

Lemma unpaired_markers_accepted_witness :
  is_already_wrapped between_blocks 4 = Some true.
Proof.
  apply (proj1 unpaired_markers_accepted between_blocks 4 1 7
           (ln "#if DEBUG") (ln "    #endif")).
  - simpl. lia.
  - lia.
  - lia.
  - lia.
  - reflexivity.
  - reflexivity.
  - intros r l Hr Hn.
    assert (r = 2 \/ r = 3) as [-> | ->] by lia;
      injection Hn as <-; reflexivity.
  - lia.
  - lia.
  - reflexivity.
  - reflexivity.
Defined.

(** ** The rewriter and line comments *)




(** * Further properties *)

(** ** The wrap detector, exactly *)

Section DetectorExact.

Variable lines : list string.

Lemma endif_ahead_true_inv (js : list Z) :
  endif_ahead lines js = Some true ->
  exists q lq, In q js /\ getitem lines q = Some lq
               /\ is_guard_close lq = true.
Proof.
  induction js as [|j js IH]; simpl; [discriminate|].
  destruct (getitem lines j) as [l|] eqn:Hl; [|discriminate].
  destruct (is_guard_close l) eqn:Hc.
  - intros _. exists j, l. auto.
  - intros H. destruct (IH H) as (q & lq & Hin & Hq & Hcl).
    exists q, lq. auto.
Qed.

Lemma scan_back_true_inv (idx : Z) (is_ : list Z) :
  scan_back lines idx is_ = Some true ->
  endif_ahead lines
    (range (idx + 1) (Z.min (Z.of_nat (List.length lines)) (idx + 10)))
  = Some true
  /\ exists is1 p is2 lp,
       is_ = is1 ++ p :: is2 /\ getitem lines p = Some lp
       /\ is_guard_open lp = true
       /\ forall i, In i is1 ->
            exists l, getitem lines i = Some l /\ is_declaration l = false.
Proof.
  induction is_ as [|i is_ IH]; simpl; [discriminate|].
  destruct (getitem lines i) as [l|] eqn:Hl; [|discriminate].
  set (ahead := endif_ahead lines _) in *.
  assert (Hrec : is_declaration l = false ->
                 scan_back lines idx is_ = Some true ->
                 ahead = Some true
                 /\ exists is1 p is2 lp,
                      i :: is_ = is1 ++ p :: is2 /\ getitem lines p = Some lp
                      /\ is_guard_open lp = true
                      /\ forall k, In k is1 ->
                           exists l', getitem lines k = Some l'
                                      /\ is_declaration l' = false).
  { intros Hd H. destruct (IH H) as (Ha & is1 & p & is2 & lp & -> & Hp & Ho & H1).
    split; [exact Ha|]. exists (i :: is1), p, is2, lp.
    repeat split; auto.
    intros k [<-|Hk]; [eauto|auto]. }
  destruct (is_guard_open l) eqn:Ho.
  - destruct ahead as [[|]|] eqn:Ha; try discriminate.
    + intros _. split; [reflexivity|].
      exists [], i, is_, l. repeat split; auto. intros k [].
    + destruct (is_declaration l) eqn:Hd; [discriminate|]. now apply Hrec.
  - destruct (is_declaration l) eqn:Hd; [discriminate|]. now apply Hrec.
Qed.

(** The part of a descending range before one of its elements. *)
Lemma range_down_prefix (a b p : Z) (is1 is2 : list Z) :
  range_down a b = is1 ++ p :: is2 -> is1 = range_down a p.
Proof.
  revert a. induction is1 as [|x is1 IH]; intros a H.
  - destruct (Z_lt_le_dec b a) as [Hlt|Hle].
    + rewrite range_down_cons in H by lia. injection H as -> _.
      now rewrite range_down_nil by lia.
    + rewrite range_down_nil in H by lia. discriminate.
  - destruct (Z_lt_le_dec b a) as [Hlt|Hle].
    + rewrite range_down_cons in H by lia. simpl in H.
      injection H as <- H.
      assert (Hp : In p (range_down (a - 1) b))
        by (rewrite H; apply in_or_app; right; now left).
      apply in_range_down in Hp.
      rewrite (range_down_cons a p) by lia. f_equal. now apply IH.
    + rewrite range_down_nil in H by lia. discriminate.
Qed.

Variable idx : nat.
Hypothesis idx_in : idx < List.length lines.

Lemma is_already_wrapped_true_inv :
  is_already_wrapped lines idx = Some true ->
  exists p q lp lq,
    (1 <= p /\ p < idx /\ idx < p + 10)
    /\ nth_error lines p = Some lp /\ is_guard_open lp = true
    /\ (forall r l, p < r < idx -> nth_error lines r = Some l ->
                    is_declaration l = false)
    /\ (idx < q /\ q < idx + 10)
    /\ nth_error lines q = Some lq /\ is_guard_close lq = true.
Proof.
  unfold is_already_wrapped. intros H.
  apply scan_back_true_inv in H.
  destruct H as (Ha & is1 & p & is2 & lp & Hsplit & Hp & Ho & H1).
  apply endif_ahead_true_inv in Ha. destruct Ha as (q & lq & Hq & Hlq & Hc).
  apply in_range in Hq.
  assert (Hpin : In p (range_down (Z.of_nat idx - 1)
                         (Z.max 0 (Z.of_nat idx - 10))))
    by (rewrite Hsplit; apply in_or_app; right; now left).
  apply in_range_down in Hpin.
  apply range_down_prefix in Hsplit. subst is1.
  exists (Z.to_nat p), (Z.to_nat q), lp, lq.
  rewrite <- (Z2Nat.id p) in Hp by lia. rewrite getitem_nat in Hp.
  rewrite <- (Z2Nat.id q) in Hlq by lia. rewrite getitem_nat in Hlq.
  repeat split; auto; try lia.
  intros r l Hr Hl.
  destruct (H1 (Z.of_nat r)) as (l' & Hl' & Hd).
  - apply in_range_down. lia.
  - rewrite getitem_nat in Hl'. congruence.
Qed.

End DetectorExact.

(** X1. [is_already_wrapped], on a line index of the file, answers True
    exactly when a guard-open line lies among the nine lines before the
    index, line 0 left out, with no declaration line between it and the
    index, and a guard-close line lies among the nine lines after the
    index. *)
Theorem is_already_wrapped_exactly (lines : list string) (idx : nat) :
  idx < List.length lines ->
  (is_already_wrapped lines idx = Some true <->
   exists p q lp lq,
     (1 <= p /\ p < idx /\ idx < p + 10)
     /\ nth_error lines p = Some lp /\ is_guard_open lp = true
     /\ (forall r l, p < r < idx -> nth_error lines r = Some l ->
                     is_declaration l = false)
     /\ (idx < q /\ q < idx + 10)
     /\ nth_error lines q = Some lq /\ is_guard_close lq = true).
Proof.
  intros Hi. split.
  - now apply is_already_wrapped_true_inv.
  - intros (p & q & lp & lq & (Hp1 & Hp2 & Hp3) & Hlp & Ho & Hmid
            & (Hq1 & Hq2) & Hlq & Hc).
    exact (is_already_wrapped_true lines idx Hi p q lp lq
             Hp1 Hp2 Hp3 Hlp Ho Hmid Hq1 Hq2 Hlq Hc).
Qed.

Lemma is_already_wrapped_exactly_witness :
  is_already_wrapped between_blocks 4 = Some true <->
  exists p q lp lq,
    (1 <= p /\ p < 4 /\ 4 < p + 10)
    /\ nth_error between_blocks p = Some lp /\ is_guard_open lp = true
    /\ (forall r l, p < r < 4 -> nth_error between_blocks r = Some l ->
                    is_declaration l = false)
    /\ (4 < q /\ q < 4 + 10)
    /\ nth_error between_blocks q = Some lq /\ is_guard_close lq = true.
Proof.
  apply (is_already_wrapped_exactly between_blocks 4). simpl. lia.
Defined.

(** X2. A candidate on line 0, on line 1 or on the last line of the file is
    never reported wrapped: before lines 0 and 1 the backward loop has
    nothing to examine, after the last line the forward loop has
    nothing. *)
Theorem is_already_wrapped_at_the_ends (lines : list string) (idx : nat) :
  idx < List.length lines ->
  idx <= 1 \/ idx + 1 = List.length lines ->
  is_already_wrapped lines idx = Some false.
Proof.
  intros Hi [Hlow|Hlast].
  - apply is_already_wrapped_no_open; [exact Hi|]. intros r l Hr. lia.
  - apply is_already_wrapped_no_close; [exact Hi|].
    intros r l Hr1 Hr2 Hn.
    assert (r < List.length lines) by (apply nth_error_Some; congruence).
    lia.
Qed.

Lemma is_already_wrapped_at_the_ends_witness :
  is_already_wrapped guarded_at_start 1 = Some false.
Proof.
  apply is_already_wrapped_at_the_ends; simpl; lia.
Defined.

(** X3. [is_already_wrapped] raises no IndexError for an index up to the
    length of the file, and raises one for every larger index from 2 on:
    the backward loop starts on the line before the index. *)
Theorem is_already_wrapped_index_error (lines : list string) (idx : nat) :
  (idx <= List.length lines ->
   exists b, is_already_wrapped lines idx = Some b)
  /\ (List.length lines < idx -> 2 <= idx ->
      is_already_wrapped lines idx = None).
Proof.
  split.
  - intros Hi. unfold is_already_wrapped. apply scan_back_total.
    + intros i Hin. apply in_range_down in Hin. lia.
    + apply endif_ahead_total. intros j Hj. apply in_range in Hj. lia.
  - intros Hlen H2. unfold is_already_wrapped.
    rewrite range_down_cons by lia. simpl.
    replace (Z.of_nat idx - 1)%Z with (Z.of_nat (idx - 1)) by lia.
    rewrite getitem_nat.
    replace (nth_error lines (idx - 1)) with (@None string); [reflexivity|].
    symmetry. apply nth_error_None. lia.
Qed.

Lemma is_already_wrapped_index_error_witness :
  (exists b, is_already_wrapped guarded_at_start 3 = Some b)
  /\ is_already_wrapped guarded_at_start 4 = None.
Proof.
  split.
  - apply (proj1 (is_already_wrapped_index_error guarded_at_start 3)).
    simpl. lia.
  - apply (proj2 (is_already_wrapped_index_error guarded_at_start 4));
      simpl; lia.
Defined.

(** ** The statement-end locator and the indentation *)

Lemma scan_lines_shift (st : scan_state) (a idx : nat) (rest : list string) :
  scan_lines st (a + idx) rest
  = option_map (Nat.add a) (scan_lines st idx rest).
Proof.
  revert st idx. induction rest as [|l rest IH]; intros st idx; simpl;
    [reflexivity|].
  destruct (scan_line st l) as [st1|]; [|reflexivity].
  rewrite <- IH. f_equal. lia.
Qed.

(** X4. [find_print_end] never returns an index before the start index,
    and never one beyond the last line when the start index is a line of
    the file; from a start index beyond the file it returns that index. *)
Theorem find_print_end_range (lines : list string) (start_idx : nat) :
  start_idx <= find_print_end lines start_idx
  /\ find_print_end lines start_idx
     < Nat.max (S start_idx) (List.length lines).
Proof.
  destruct (Nat.lt_ge_cases start_idx (List.length lines)) as [Hi|Hi].
  - pose proof (find_print_end_bounds lines start_idx Hi). lia.
  - unfold find_print_end. rewrite skipn_all2 by lia. cbn [scan_lines]. lia.
Qed.

(** X5. [find_print_end] looks at no line before the start index: after any
    lines [before], the answer is the answer on the rest of the file,
    moved by the number of those lines. *)
Theorem find_print_end_after_prefix
        (before rest : list string) (start_idx : nat) :
  find_print_end (before ++ rest) (List.length before + start_idx)
  = List.length before + find_print_end rest start_idx.
Proof.
  unfold find_print_end.
  rewrite skipn_app, skipn_all2 by lia.
  replace (List.length before + start_idx - List.length before)
    with start_idx by lia.
  simpl. rewrite scan_lines_shift.
  destruct (scan_lines scan_init start_idx (skipn start_idx rest));
    reflexivity.
Qed.

(** X6. [get_indentation] is the length of the longest whitespace prefix of
    the line: the line is that many whitespace characters followed by
    [lstrip] of the line, which does not start with whitespace. *)
Theorem get_indentation_prefix (line : string) :
  exists ws,
    line = (ws ++ lstrip line)%string
    /\ String.length ws = get_indentation line
    /\ all_space ws = true
    /\ forall c r, lstrip line = String c r -> is_space c = false.
Proof.
  unfold get_indentation.
  induction line as [|c s (ws & Hs & Hlen & Hall & Hnext)].
  - exists EmptyString. repeat split. discriminate.
  - cbn [lstrip]. destruct (is_space c) eqn:Hc.
    + exists (String c ws). cbn [String.length all_space append].
      rewrite Hc, Hall, <- Hs.
      pose proof (length_lstrip_le s).
      repeat split; [lia|exact Hnext].
    + exists EmptyString. cbn [String.length all_space append].
      repeat split; [lia|].
      intros c' r H. injection H as <- _. exact Hc.
Qed.

(** ** The rewriter: what a run is made of *)

Section Segments.

Variable lines : list string.

Lemma Emits_segments (i : nat) (out : list string) (n : nat) :
  Emits lines i out n ->
  exists segs,
    out = flat_map segment_output segs
    /\ skipn i lines = flat_map segment_input segs
    /\ n = List.length (filter is_wrapped_segment segs)
    /\ Forall (segment_ok lines) segs.
Proof.
  induction 1 as [i Hi|i line out n Hl Hwhy He (segs & -> & Hin & -> & Hok)
                  |i line out n Hl Hc Hw He (segs & -> & Hin & -> & Hok)].
  - exists []. rewrite skipn_all2 by exact Hi. repeat split. constructor.
  - exists (Passed line :: segs).
    rewrite (skipn_nth_error lines i line Hl), Hin.
    repeat split. constructor; [|exact Hok].
    destruct Hwhy as [Hnc|Hwr]; [now left|right; eauto].
  - assert (Hi : i < List.length lines)
      by (apply nth_error_Some; congruence).
    pose proof (find_print_end_bounds lines i Hi) as Hb.
    destruct (slice_first lines i (find_print_end lines i) line)
      as [more Hs]; [lia|exact Hl|].
    exists (Wrapped line more :: segs).
    rewrite (slice_skipn lines i (find_print_end lines i)) by lia.
    rewrite Hs, Hin. cbn [flat_map segment_output segment_input filter
                            is_wrapped_segment List.length].
    repeat split.
    + cbn [app]. f_equal. f_equal. now rewrite <- app_assoc.
    + constructor; [exact Hc|exact Hok].
Qed.

Lemma Emits_no_change (i : nat) (out : list string) (n : nat) :
  Emits lines i out n -> n = 0 -> out = skipn i lines.
Proof.
  induction 1 as [i Hi|i line out n Hl Hwhy He IH
                  |i line out n Hl Hc Hw He IH]; intros Hn.
  - now rewrite skipn_all2.
  - rewrite (skipn_nth_error lines i line Hl). f_equal. now apply IH.
  - discriminate.
Qed.

End Segments.

(** X7. A run is a sequence of pieces that make up the input in order: a
    line passed on as it is, or a block of consecutive lines that gets a
    guard-open line before and a guard-close line after it, both indented
    by [get_indentation] of the block's first line.  The first line of
    every block is a candidate line, a line passed on is no candidate or
    is reported wrapped, and [changes_made] is the number of blocks. *)
Theorem wrap_prints_in_file_segments (lines : list string) :
  exists segs,
    wrap_prints_in_file lines
    = Some (flat_map segment_output segs,
            List.length (filter is_wrapped_segment segs))
    /\ flat_map segment_input segs = lines
    /\ Forall (segment_ok lines) segs.
Proof.
  destruct (wrap_prints_Emits lines) as (out & n & Hw & He).
  destruct (Emits_segments lines 0 out n He) as (segs & -> & Hin & -> & Hok).
  exists segs. repeat split; auto.
Qed.

(** X8. The run counts no change exactly when its output is the input: the
    file is rewritten, which the source does when the count is positive,
    exactly when its lines change. *)
Theorem changes_zero_iff_unchanged (lines : list string) :
  exists out n,
    wrap_prints_in_file lines = Some (out, n) /\ (n = 0 <-> out = lines).
Proof.
  destruct (wrap_prints_Emits lines) as (out & n & Hw & He).
  exists out, n. split; [exact Hw|]. split.
  - intros Hn. apply (Emits_no_change lines 0 out n He Hn).
  - intros ->. apply Emits_interleaved in He. destruct He as [_ Hlen].
    simpl in Hlen. lia.
Qed.

(** X9. A file without a candidate line -- the empty file among them --
    comes out as it is, with no change counted. *)
Theorem no_candidate_no_change (lines : list string) :
  (forall l, In l lines -> is_candidate l = false) ->
  wrap_prints_in_file lines = Some (lines, 0).
Proof.
  intros H. apply all_wrapped_noop. intros k l Hk Hc.
  rewrite (H l) in Hc; [discriminate|]. eapply nth_error_In; eauto.
Qed.

Lemma no_candidate_no_change_witness :
  wrap_prints_in_file [ln "// header"; ln "let x = 1"]
  = Some ([ln "// header"; ln "let x = 1"], 0).
Proof.
  apply no_candidate_no_change.
  intros l H. simpl in H.
  repeat (destruct H as [<-|H]; [reflexivity|]). destruct H.
Defined.

Section SingleLine.

Variable lines : list string.
Hypothesis no_markers : forall l, In l lines -> plain l.
Hypothesis single_line :
  forall i l, nth_error lines i = Some l -> is_candidate l = true ->
              find_print_end lines i = i.

Lemma Emits_line_by_line (i : nat) (out : list string) (n : nat) :
  Emits lines i out n ->
  out = flat_map wrap_line (skipn i lines)
  /\ n = List.length (filter is_candidate (skipn i lines)).
Proof.
  induction 1 as [i Hi|i line out n Hl Hwhy He [-> ->]
                  |i line out n Hl Hc Hw He [-> ->]].
  - rewrite skipn_all2 by exact Hi. split; reflexivity.
  - assert (Hi : i < List.length lines)
      by (apply nth_error_Some; congruence).
    destruct Hwhy as [Hnc|Hwr];
      [|rewrite (input_not_wrapped lines no_markers i Hi) in Hwr;
        discriminate].
    assert (Hone : wrap_line line = [line])
      by (unfold wrap_line; now rewrite Hnc).
    rewrite (skipn_nth_error lines i line Hl).
    cbn [flat_map filter]. rewrite Hone, Hnc.
    split; reflexivity.
  - assert (Hone : wrap_line line
                   = [guard_open (get_indentation line); line;
                      guard_close (get_indentation line)])
      by (unfold wrap_line; now rewrite Hc).
    rewrite (single_line i line Hl Hc).
    unfold slice. rewrite (skipn_nth_error lines i line Hl).
    replace (i + 1 - i) with 1 by lia.
    cbn [flat_map filter firstn]. rewrite Hone, Hc.
    split; reflexivity.
Qed.

End SingleLine.

(** X10. Per-line independence: on a file without guard marker lines in
    which every candidate statement ends on its own line, the rewriter
    works line by line: every candidate line gets a guard pair of its own,
    every other line is passed on, and [changes_made] is the number of
    candidate lines. *)
Theorem wrap_prints_in_file_line_by_line (lines : list string) :
  (forall l, In l lines -> plain l) ->
  (forall i l, nth_error lines i = Some l -> is_candidate l = true ->
               find_print_end lines i = i) ->
  wrap_prints_in_file lines
  = Some (flat_map wrap_line lines,
          List.length (filter is_candidate lines)).
Proof.
  intros H1 H2.
  destruct (wrap_prints_Emits lines) as (out & n & Hw & He).
  destruct (Emits_line_by_line lines H1 H2 0 out n He) as [-> ->].
  exact Hw.
Qed.

Lemma wrap_prints_in_file_line_by_line_witness :
  wrap_prints_in_file [ln "print(a)"; ln "print(b)"]
  = Some (flat_map wrap_line [ln "print(a)"; ln "print(b)"],
          List.length (filter is_candidate [ln "print(a)"; ln "print(b)"])).
Proof.
  apply wrap_prints_in_file_line_by_line.
  - intros l H. simpl in H.
    repeat (destruct H as [<-|H]; [split; reflexivity|]). destruct H.
  - intros i l H Hc.
    destruct i as [|[|i]]; simpl in H; [| |destruct i; discriminate];
      reflexivity.
Defined.

(** ** Coverage *)

Section Coverage.

Lemma enclosed_shift (pre out input' input : list string) (k : nat) :
  enclosed out input' k -> incl input' input ->
  enclosed (pre ++ out) input (List.length pre + k).
Proof.
  intros (p & q & n & Hp & Hq & Ho & Hc & Hmid) Hincl.
  exists (List.length pre + p), (List.length pre + q), n.
  split; [lia|]. split; [lia|].
  rewrite !nth_error_app2 by lia.
  replace (List.length pre + p - List.length pre) with p by lia.
  replace (List.length pre + q - List.length pre) with q by lia.
  split; [exact Ho|]. split; [exact Hc|].
  intros r Hr. destruct (Hmid (r - List.length pre)) as (l & Hl & Hin);
    [lia|].
  exists l. split; [|now apply Hincl].
  now rewrite nth_error_app2 by lia.
Qed.

Lemma segments_enclosed (segs : list segment) :
  Forall (fun sg => forall l, sg = Passed l -> is_candidate l = false) segs ->
  forall k l,
    nth_error (flat_map segment_output segs) k = Some l ->
    is_candidate l = true ->
    enclosed (flat_map segment_output segs) (flat_map segment_input segs) k.
Proof.
  induction 1 as [|sg segs Hsg Hall IH]; intros k l Hk Hc.
  - destruct k; discriminate.
  - cbn [flat_map] in *.
    set (pre := segment_output sg) in *.
    destruct (Nat.lt_ge_cases k (List.length pre)) as [Hlt|Hge].
    + rewrite nth_error_app1 in Hk by exact Hlt.
      destruct sg as [l0|first more].
      * destruct k as [|k]; [|simpl in Hlt; lia].
        simpl in Hk. injection Hk as <-.
        rewrite (Hsg l0 eq_refl) in Hc. discriminate.
      * subst pre. cbn [segment_output segment_input] in *.
        set (blk := first :: more) in *.
        set (ind := get_indentation first) in *.
        assert (Hform : (guard_open ind :: blk ++ [guard_close ind])
                          ++ flat_map segment_output segs
                        = guard_open ind :: blk
                            ++ guard_close ind
                            :: flat_map segment_output segs).
        { simpl. now rewrite <- app_assoc. }
        rewrite Hform.
        assert (Hlen : List.length (guard_open ind :: blk
                                      ++ [guard_close ind])
                       = S (S (List.length blk)))
          by (cbn [List.length]; rewrite length_app; simpl; lia).
        rewrite Hlen in Hlt.
        destruct (Nat.eq_dec k 0) as [->|Hk0].
        { simpl in Hk. injection Hk as <-.
          rewrite guard_open_not_candidate in Hc. discriminate. }
        destruct (Nat.eq_dec k (S (List.length blk))) as [->|Hkc].
        { replace (guard_open ind :: blk ++ [guard_close ind])
            with (guard_open ind :: blk ++ guard_close ind :: []) in Hk
            by reflexivity.
          rewrite nth_block_close in Hk. injection Hk as <-.
          rewrite guard_close_not_candidate in Hc. discriminate. }
        exists 0, (S (List.length blk)), ind.
        split; [lia|]. split; [lia|]. split; [reflexivity|].
        split; [apply nth_block_close|].
        intros r Hr. rewrite nth_block_mid by lia.
        destruct (nth_error blk (r - 1)) as [l'|] eqn:E.
        -- exists l'. split; [reflexivity|].
           apply in_or_app. left. eapply nth_error_In; eauto.
        -- apply nth_error_None in E. lia.
    + rewrite nth_error_app2 in Hk by exact Hge.
      replace k with (List.length pre + (k - List.length pre)) by lia.
      apply enclosed_shift
        with (input' := flat_map segment_input segs).
      * now apply (IH _ l).
      * intros x Hx. apply in_or_app. now right.
Qed.

End Coverage.

(** X11. Coverage: on a file without guard marker lines, every candidate
    line of the output -- every candidate line of the input is one -- lies
    inside a guard pair that the rewriter inserted: after an inserted
    guard-open line and before the inserted guard-close line of the same
    indentation, with only lines of the input between the two markers. *)
Theorem candidates_enclosed (lines : list string) :
  (forall l, In l lines -> plain l) ->
  exists out n,
    wrap_prints_in_file lines = Some (out, n)
    /\ forall k l, nth_error out k = Some l -> is_candidate l = true ->
                   enclosed out lines k.
Proof.
  intros Hplain.
  destruct (wrap_prints_in_file_segments lines) as (segs & Hw & Hin & Hok).
  eexists _, _. split; [exact Hw|].
  assert (Hpassed : Forall (fun sg => forall l, sg = Passed l ->
                                                is_candidate l = false) segs);
    [|intros k l Hk Hc; rewrite <- Hin;
      now apply (segments_enclosed segs Hpassed k l)].
  rewrite Forall_forall in *. intros sg Hsg l ->.
  destruct (Hok _ Hsg) as [Hnc|(j & Hj & Hwr)]; [exact Hnc|].
  assert (j < List.length lines) by (apply nth_error_Some; congruence).
  rewrite (input_not_wrapped lines Hplain j) in Hwr by assumption.
  discriminate.
Qed.

Lemma candidates_enclosed_witness :
  exists out n,
    wrap_prints_in_file nested_statement = Some (out, n)
    /\ forall k l, nth_error out k = Some l -> is_candidate l = true ->
                   enclosed out nested_statement k.
Proof.
  apply candidates_enclosed.
  intros l H. unfold nested_statement in H. simpl in H.
  repeat (destruct H as [<-|H]; [split; reflexivity|]). destruct H.
Defined.

(** ** The text that is written *)

Section Text.

Lemma no_newline_append (s t : string) :
  no_newline (s ++ t) = no_newline s && no_newline t.
Proof.
  induction s as [|c s IH]; simpl; [reflexivity|].
  rewrite IH. now rewrite andb_assoc.
Qed.

Lemma no_newline_spaces (n : nat) : no_newline (spaces n) = true.
Proof. induction n as [|n IH]; simpl; auto. Qed.

Lemma terminated_guard_open (n : nat) : terminated (guard_open n).
Proof.
  exists (spaces n ++ "#if DEBUG")%string. split.
  - unfold guard_open. now rewrite append_assoc_str.
  - now rewrite no_newline_append, no_newline_spaces.
Qed.

Lemma terminated_guard_close (n : nat) : terminated (guard_close n).
Proof.
  exists (spaces n ++ "#endif")%string. split.
  - unfold guard_close. now rewrite append_assoc_str.
  - now rewrite no_newline_append, no_newline_spaces.
Qed.

(** Text without a newline stays on the line that follows it. *)
Lemma readlines_no_newline (body rest : string) :
  no_newline body = true ->
  readlines (body ++ rest)
  = match readlines rest with
    | [] => match body with EmptyString => [] | _ => [body] end
    | l :: ls => (body ++ l)%string :: ls
    end.
Proof.
  induction body as [|c body IH]; intros H; simpl.
  - destruct (readlines rest); reflexivity.
  - simpl in H. apply andb_prop in H. destruct H as [Hc Hb].
    destruct (Ascii.eqb c newline); [discriminate|].
    rewrite (IH Hb).
    destruct (readlines rest) as [|l ls]; [|reflexivity].
    destruct body; reflexivity.
Qed.

Lemma readlines_terminated (l rest : string) :
  terminated l -> readlines (l ++ rest) = l :: readlines rest.
Proof.
  intros (body & -> & Hb).
  rewrite append_assoc_str, (readlines_no_newline body _ Hb).
  reflexivity.
Qed.

Lemma readlines_terminated_lines (ls : list string) (rest : string) :
  Forall terminated ls ->
  readlines (writelines ls ++ rest) = ls ++ readlines rest.
Proof.
  unfold writelines. induction 1 as [|l ls Hl Hls IH]; [reflexivity|].
  rewrite chars_of_cons, append_assoc_str, (readlines_terminated _ _ Hl).
  simpl. now rewrite IH.
Qed.

Lemma append_empty_r (s : string) : (s ++ EmptyString)%string = s.
Proof. induction s as [|c s IH]; simpl; [reflexivity|now rewrite IH]. Qed.

Lemma Interleaved_Forall (P : string -> Prop) (input out : list string) :
  (forall m, inserted_marker m -> P m) ->
  Interleaved input out -> Forall P input -> Forall P out.
Proof.
  intros Hm. induction 1 as [|l input out H IH|m input out Hins H IH];
    intros Hin.
  - constructor.
  - inversion Hin; subst. constructor; auto.
  - constructor; auto.
Qed.

Lemma terminated_inserted (m : string) : inserted_marker m -> terminated m.
Proof.
  intros [n|n]; [apply terminated_guard_open|apply terminated_guard_close].
Qed.

End Text.

(** X12. What is written is read back line for line: when every line read
    from the file ends with its only newline, so does every line of the
    output, and [readlines] on the text that [writelines] makes of the
    output gives the output again. *)
Theorem written_lines_read_back (lines : list string) :
  Forall terminated lines ->
  exists out n,
    wrap_prints_in_file lines = Some (out, n)
    /\ Forall terminated out
    /\ readlines (writelines out) = out.
Proof.
  intros Hin.
  destruct (wrap_prints_Emits lines) as (out & n & Hw & He).
  apply Emits_interleaved in He. destruct He as [He _]. simpl in He.
  pose proof (Interleaved_Forall terminated lines out
                terminated_inserted He Hin) as Hout.
  exists out, n. split; [exact Hw|]. split; [exact Hout|].
  rewrite <- (append_empty_r (writelines out)).
  rewrite (readlines_terminated_lines out EmptyString Hout).
  simpl. apply app_nil_r.
Qed.

Lemma written_lines_read_back_witness :
  exists out n,
    wrap_prints_in_file indented_statement = Some (out, n)
    /\ Forall terminated out
    /\ readlines (writelines out) = out.
Proof.
  apply written_lines_read_back.
  unfold indented_statement.
  repeat constructor.
  - exists "// header". split; reflexivity.
  - exists ("    print(" ++ dq ++ "hi" ++ dq ++ ")")%string.
    split; reflexivity.
  - exists "let x = 1". split; reflexivity.
Defined.

Section FinalNewline.

Variables (front : list string) (last : string).
Variable P : string -> Prop.
Hypothesis last_candidate : is_candidate last = true.
Hypothesis P_front : Forall P front.
Hypothesis P_open : forall m, P (guard_open m).
Hypothesis P_close : forall m, P (guard_close m).

Let lines : list string := front ++ [last].

Lemma Emits_at_end (i : nat) (out : list string) (n : nat) :
  List.length lines <= i -> Emits lines i out n -> out = [] /\ n = 0.
Proof.
  intros Hi He.
  destruct He as [i _|i line out n Hl _ _|i line out n Hl _ _ _];
    [split; reflexivity| |];
    assert (i < List.length lines) by (apply nth_error_Some; congruence);
    lia.
Qed.

Lemma Forall_skipn_front (i : nat) : Forall P (skipn i front).
Proof.
  rewrite <- (firstn_skipn i front) in P_front.
  apply Forall_app in P_front. tauto.
Qed.

Lemma Forall_firstn_skipn_front (k i : nat) :
  Forall P (firstn k (skipn i front)).
Proof.
  pose proof (Forall_skipn_front i) as H.
  rewrite <- (firstn_skipn k (skipn i front)) in H.
  apply Forall_app in H. tauto.
Qed.

Lemma Emits_ends_with_close (i : nat) (out : list string) (n : nat) :
  Emits lines i out n -> i <= List.length front ->
  exists out' m, out = out' ++ [last; guard_close m] /\ Forall P out'.
Proof.
  assert (Hlen : List.length lines = S (List.length front))
    by (unfold lines; rewrite length_app; simpl; lia).
  induction 1 as [i Hi|i line out n Hl Hwhy He IH
                  |i line out n Hl Hc Hw He IH]; intros Hle.
  - lia.
  - destruct (Nat.eq_dec i (List.length front)) as [->|Hne].
    + exfalso. unfold lines in Hl.
      rewrite nth_error_app2, Nat.sub_diag in Hl by lia.
      simpl in Hl. injection Hl as <-.
      destruct Hwhy as [Hnc|Hwr]; [congruence|].
      rewrite (is_already_wrapped_at_the_ends lines (List.length front))
        in Hwr; [discriminate|lia|right; lia].
    + destruct IH as (out' & m & -> & Hout'); [lia|].
      exists (line :: out'), m. split; [reflexivity|].
      constructor; [|exact Hout'].
      unfold lines in Hl. rewrite nth_error_app1 in Hl by lia.
      rewrite Forall_forall in P_front. apply P_front.
      eapply nth_error_In; eauto.
  - assert (Hi : i < List.length lines) by lia.
    pose proof (find_print_end_bounds lines i Hi) as Hb.
    set (e := find_print_end lines i) in *.
    assert (Hskip : skipn i lines = skipn i front ++ [last]).
    { unfold lines. rewrite skipn_app.
      replace (i - List.length front) with 0 by lia. reflexivity. }
    destruct (Nat.eq_dec e (List.length front)) as [He'|Hne].
    + destruct (Emits_at_end (S e) out n) as [-> ->]; [lia|exact He|].
      exists (guard_open (get_indentation line) :: skipn i front),
        (get_indentation line).
      split.
      * unfold slice. rewrite firstn_all2
          by (rewrite length_skipn; lia).
        rewrite Hskip. simpl. now rewrite <- app_assoc.
      * constructor; [apply P_open|apply Forall_skipn_front].
    + destruct IH as (out' & m & -> & Hout'); [lia|].
      exists (guard_open (get_indentation line)
                :: slice lines i e ++ guard_close (get_indentation line)
                :: out'), m.
      split.
      * simpl. rewrite <- app_assoc. reflexivity.
      * constructor; [apply P_open|].
        apply Forall_app. split.
        -- unfold slice. rewrite Hskip, firstn_app.
           replace (e + 1 - i - List.length (skipn i front)) with 0
             by (rewrite length_skipn; lia).
           simpl. rewrite app_nil_r. apply Forall_firstn_skipn_front.
        -- constructor; [apply P_close|exact Hout'].
Qed.

End FinalNewline.

Lemma chars_of_app (l1 l2 : list string) :
  chars_of (l1 ++ l2) = (chars_of l1 ++ chars_of l2)%string.
Proof.
  induction l1 as [|l l1 IH]; [reflexivity|].
  cbn [app]. rewrite !chars_of_cons, IH. now rewrite append_assoc_str.
Qed.

(** X13. A file whose last line is a candidate line and has no final
    newline: the output ends with that line and a guard-close line, and in
    the text that is written the guard-close marker stands on the very
    line of the statement; read back, the two are one line. *)
Theorem missing_final_newline (front : list string) (last : string) :
  Forall terminated front ->
  is_candidate last = true -> no_newline last = true ->
  exists out' m n,
    wrap_prints_in_file (front ++ [last])
    = Some (out' ++ [last; guard_close m], n)
    /\ readlines (writelines (out' ++ [last; guard_close m]))
       = out' ++ [(last ++ guard_close m)%string].
Proof.
  intros Hfront Hc Hnl.
  destruct (wrap_prints_Emits (front ++ [last])) as (out & n & Hw & He).
  destruct (Emits_ends_with_close front last terminated Hc Hfront
              terminated_guard_open terminated_guard_close 0 out n He)
    as (out' & m & -> & Hout'); [lia|].
  exists out', m, n. split; [exact Hw|].
  unfold writelines. rewrite chars_of_app.
  rewrite (readlines_terminated_lines out' _ Hout'). f_equal.
  rewrite chars_of_cons.
  change (chars_of [guard_close m]) with (guard_close m).
  assert (Hterm : terminated (last ++ guard_close m)).
  { destruct (terminated_guard_close m) as (body & Hb & Hbn).
    exists (last ++ body)%string. split.
    - now rewrite Hb, append_assoc_str.
    - now rewrite no_newline_append, Hnl, Hbn. }
  rewrite <- (append_empty_r (last ++ guard_close m)) at 1.
  rewrite (readlines_terminated _ EmptyString Hterm).
  reflexivity.
Qed.

Lemma missing_final_newline_witness :
  exists out' m n,
    wrap_prints_in_file ([ln "// header"] ++ ["print(x)"])
    = Some (out' ++ ["print(x)"; guard_close m], n)
    /\ readlines (writelines (out' ++ ["print(x)"; guard_close m]))
       = out' ++ [("print(x)" ++ guard_close m)%string].
Proof.
  apply missing_final_newline.
  - repeat constructor. exists "// header". split; reflexivity.
  - reflexivity.
  - reflexivity.
Defined.

(** ** The call on a file and the driver's totals *)


Section Totals.

Lemma main_step_totals (results : list nat) (acc : nat * nat) :
  fold_left main_step results acc
  = (fst acc + list_sum results,
     snd acc + List.length (filter (Nat.ltb 0) results)).
Proof.
  revert acc. induction results as [|c results IH]; intros [t m]; simpl.
  - f_equal; lia.
  - rewrite IH. unfold main_step.
    destruct (Nat.ltb_spec 0 c); simpl; f_equal; lia.
Qed.

Lemma positive_count_le_sum (results : list nat) :
  List.length (filter (Nat.ltb 0) results) <= list_sum results.
Proof.
  induction results as [|c results IH]; simpl; [lia|].
  destruct (Nat.ltb_spec 0 c); simpl; lia.
Qed.

End Totals.

(** X15. The totals of [main]: [total_changes] is the sum of the values
    the calls return and [files_modified] the number of positive ones;
    [files_modified] exceeds neither [total_changes] nor the number of
    files, and no file is modified exactly when nothing is wrapped. *)
Theorem main_totals_sum_and_count (results : list nat) :
  main_totals results
  = (list_sum results, List.length (filter (Nat.ltb 0) results))
  /\ snd (main_totals results) <= fst (main_totals results)
  /\ snd (main_totals results) <= List.length results
  /\ (snd (main_totals results) = 0 <-> fst (main_totals results) = 0).
Proof.
  unfold main_totals. rewrite main_step_totals. cbn [fst snd Nat.add].
  pose proof (positive_count_le_sum results) as Hle.
  pose proof (filter_length_le (Nat.ltb 0) results) as Hlen.
  repeat split; try lia.
  intros Hz. clear Hle Hlen.
  induction results as [|c results IH]; [reflexivity|].
  simpl in *. destruct (Nat.ltb_spec 0 c); simpl in *; [discriminate|].
  rewrite IH by assumption. lia.
Qed.

(** * combine_csvs.py: properties *)

Import Csv.

(** ** normalize_isbn *)

Section Isbn.

(** A character that the cleaning keeps is, in upper case, a digit or the
    letter X; such a character is no whitespace and is left as it is by
    the cleaning. *)
Lemma kept_char_upper (c : ascii) :
  is_digit c || Ascii.eqb c "X" || Ascii.eqb c "x" = true ->
  is_digit (upper_char c) || Ascii.eqb (upper_char c) "X" = true.
Proof.
  destruct c as [[] [] [] [] [] [] [] []]; intros H;
    solve [reflexivity | discriminate H].
Qed.

Lemma isbn_char_fixed (c : ascii) :
  is_digit c || Ascii.eqb c "X" = true ->
  is_space c = false /\ upper_char c = c
  /\ is_digit c || Ascii.eqb c "X" || Ascii.eqb c "x" = true.
Proof.
  destruct c as [[] [] [] [] [] [] [] []]; intros H;
    solve [repeat split; reflexivity | discriminate H].
Qed.

Lemma isbn_chars_cleaned (s : string) :
  isbn_chars (upper (keep_isbn_chars s)) = true.
Proof.
  induction s as [|c s IH]; simpl; [reflexivity|].
  destruct (is_digit c || Ascii.eqb c "X" || Ascii.eqb c "x") eqn:E;
    [|exact IH].
  simpl. now rewrite (kept_char_upper c E), IH.
Qed.

Lemma isbn_chars_take (n : nat) (s : string) :
  isbn_chars s = true -> isbn_chars (take n s) = true.
Proof.
  revert s. induction n as [|n IH]; intros [|c s]; simpl; auto.
  intros H. apply andb_prop in H. destruct H as [-> H]. simpl. auto.
Qed.

Lemma length_take (n : nat) (s : string) :
  n <= String.length s -> String.length (take n s) = n.
Proof.
  revert s. induction n as [|n IH]; intros [|c s]; simpl; intros H;
    try reflexivity; try lia.
  rewrite IH; lia.
Qed.

Lemma rstrip_no_space (s : string) :
  (forall c r, s = String c r -> True) ->
  isbn_chars s = true -> rstrip s = s.
Proof.
  intros _. induction s as [|c s IH]; simpl; [reflexivity|].
  intros H. apply andb_prop in H. destruct H as [Hc Hs].
  rewrite (IH Hs). destruct (isbn_char_fixed c Hc) as (Hsp & _ & _).
  rewrite Hsp. destruct s; reflexivity.
Qed.

Lemma isbn_chars_clean_fixed (s : string) :
  isbn_chars s = true -> upper (keep_isbn_chars (strip s)) = s.
Proof.
  intros H.
  assert (Hstrip : strip s = s).
  { unfold strip.
    assert (Hl : lstrip s = s).
    { destruct s as [|c s]; [reflexivity|]. simpl in *.
      apply andb_prop in H. destruct H as [Hc _].
      destruct (isbn_char_fixed c Hc) as (-> & _ & _). reflexivity. }
    rewrite Hl. apply rstrip_no_space; auto. }
  rewrite Hstrip. clear Hstrip.
  induction s as [|c s IH]; simpl; [reflexivity|].
  simpl in H. apply andb_prop in H. destruct H as [Hc Hs].
  destruct (isbn_char_fixed c Hc) as (_ & Hu & ->).
  simpl. now rewrite Hu, (IH Hs).
Qed.

End Isbn.

(** X16. [normalize_isbn] returns digits and the letter X only. *)
Theorem normalize_isbn_chars (isbn : string) :
  isbn_chars (normalize_isbn isbn) = true.
Proof.
  unfold normalize_isbn. destruct isbn as [|c s]; [reflexivity|].
  set (clean := upper (keep_isbn_chars (strip (String c s)))).
  assert (Hclean : isbn_chars clean = true) by apply isbn_chars_cleaned.
  destruct (Nat.eqb (String.length clean) 10); [|exact Hclean].
  destruct (endswith_char clean "X"); [exact Hclean|].
  change (isbn_chars ("978" ++ take 9 clean))
    with (isbn_chars (take 9 clean)).
  now apply isbn_chars_take.
Qed.

(** X17. [normalize_isbn] never returns ten characters unless they end
    with X: a cleaned ISBN of ten characters that does not end with X
    becomes the prefix 978 and its first nine characters, twelve characters
    without a check digit. *)
Theorem normalize_isbn_ten (isbn : string) :
  (String.length (normalize_isbn isbn) = 10 ->
   endswith_char (normalize_isbn isbn) "X" = true)
  /\ (isbn <> EmptyString ->
      String.length (upper (keep_isbn_chars (strip isbn))) = 10 ->
      endswith_char (upper (keep_isbn_chars (strip isbn))) "X" = false ->
      normalize_isbn isbn
      = ("978" ++ take 9 (upper (keep_isbn_chars (strip isbn))))%string
      /\ String.length (normalize_isbn isbn) = 12).
Proof.
  unfold normalize_isbn. destruct isbn as [|c s].
  - split; [discriminate|congruence].
  - set (clean := upper (keep_isbn_chars (strip (String c s)))).
    destruct (Nat.eqb_spec (String.length clean) 10) as [Hlen|Hlen].
    + destruct (endswith_char clean "X") eqn:Hx.
      * split; [intros _; exact Hx|intros _ _ H; congruence].
      * assert (Hl : String.length ("978" ++ take 9 clean) = 12)
          by (cbn [append String.length]; rewrite length_take; lia).
        split; [rewrite Hl; discriminate|auto].
    + split; [intros H; contradiction|intros _ H; contradiction].
Qed.

Lemma normalize_isbn_ten_witness :
  normalize_isbn "0-306-40615-2"
  = ("978" ++ take 9 (upper (keep_isbn_chars (strip "0-306-40615-2"))))%string
  /\ String.length (normalize_isbn "0-306-40615-2") = 12.
Proof.
  apply (proj2 (normalize_isbn_ten "0-306-40615-2")).
  - discriminate.
  - reflexivity.
  - reflexivity.
Defined.

(** X18. [normalize_isbn] is idempotent: a normalized ISBN is left as it
    is. *)
Theorem normalize_isbn_idempotent (isbn : string) :
  normalize_isbn (normalize_isbn isbn) = normalize_isbn isbn.
Proof.
  pose proof (normalize_isbn_chars isbn) as Hc.
  pose proof (proj1 (normalize_isbn_ten isbn)) as Hten.
  set (r := normalize_isbn isbn) in *.
  unfold normalize_isbn at 1. destruct r as [|c s] eqn:Er; [reflexivity|].
  rewrite <- Er in *. rewrite (isbn_chars_clean_fixed r Hc).
  destruct (Nat.eqb_spec (String.length r) 10) as [Hlen|Hlen];
    [|reflexivity].
  now rewrite (Hten Hlen).
Qed.

(** ** normalize_text *)

Section Text2.

(** What it means for [rstrip] to leave a string as it is. *)
Lemma rstrip_fixed_cons (c : ascii) (r : string) :
  rstrip (String c r) = String c r ->
  (r = EmptyString /\ is_space c = false)
  \/ (r <> EmptyString /\ rstrip r = r).
Proof.
  simpl. destruct (rstrip r) as [|a t] eqn:E.
  - destruct (is_space c) eqn:Hc; [discriminate|].
    intros H. injection H as <-. now left.
  - intros H. injection H as <-. right. split; [discriminate|reflexivity].
Qed.

Lemma rstrip_idempotent (s : string) : rstrip (rstrip s) = rstrip s.
Proof.
  induction s as [|c s IH]; simpl; [reflexivity|].
  destruct (rstrip s) as [|a t] eqn:E.
  - destruct (is_space c) eqn:Hc; simpl; [reflexivity|now rewrite Hc].
  - simpl in *. rewrite IH. reflexivity.
Qed.

Lemma lstrip_head (s : string) :
  forall c r, lstrip s = String c r -> is_space c = false.
Proof.
  induction s as [|a s IH]; simpl; [discriminate|].
  destruct (is_space a) eqn:Ha; [exact IH|].
  intros c r H. injection H as <- _. exact Ha.
Qed.

Lemma rstrip_head (c : ascii) (r : string) :
  is_space c = false -> exists t, rstrip (String c r) = String c t.
Proof.
  intros Hc. simpl. destruct (rstrip r); [rewrite Hc|]; eauto.
Qed.

(** A stripped string starts with no whitespace and is left as it is by
    [rstrip]. *)
Lemma strip_shape (s : string) :
  rstrip (strip s) = strip s
  /\ forall c r, strip s = String c r -> is_space c = false.
Proof.
  unfold strip. split; [apply rstrip_idempotent|].
  destruct (lstrip s) as [|a t] eqn:E; [discriminate|].
  pose proof (lstrip_head s a t E) as Ha.
  destruct (rstrip_head a t Ha) as [u ->].
  intros c r H. injection H as <- _. exact Ha.
Qed.

Lemma collapse_spaced (u : string) (in_run : bool) :
  rstrip u = u -> (u = EmptyString -> in_run = false) ->
  spaced_from in_run (collapse_spaces in_run u) = true.
Proof.
  revert in_run. induction u as [|c r IH]; intros in_run Hfix Hempty.
  - rewrite Hempty; reflexivity.
  - cbn [collapse_spaces].
    destruct (rstrip_fixed_cons c r Hfix) as [[-> Hc]|[Hne Hr]].
    + rewrite Hc. cbn [spaced_from collapse_spaces]. now rewrite Hc.
    + destruct (is_space c) eqn:Hc.
      * destruct in_run.
        -- apply IH; [exact Hr|contradiction].
        -- cbn [spaced_from].
           replace (is_space " ") with true by reflexivity.
           cbn [Ascii.eqb Bool.eqb negb andb].
           apply IH; [exact Hr|contradiction].
      * cbn [spaced_from]. rewrite Hc. apply IH; [exact Hr|reflexivity].
Qed.

End Text2.

(** X19. [normalize_text] returns a text without whitespace at either end
    in which every whitespace character is a space that follows no other:
    words separated by single spaces. *)
Theorem normalize_text_single_spaced (text : string) :
  single_spaced (normalize_text text) = true.
Proof.
  unfold normalize_text. destruct text as [|c0 text0]; [reflexivity|].
  set (u := strip _).
  destruct (strip_shape (strip_char "'" (strip_char dquote
                                          (strip (String c0 text0)))))
    as [Hfix Hhead].
  fold u in Hfix, Hhead.
  destruct u as [|c r] eqn:Eu; [reflexivity|].
  pose proof (Hhead c r eq_refl) as Hc.
  pose proof (collapse_spaced (String c r) false Hfix ltac:(discriminate))
    as H.
  cbn [collapse_spaces] in *. rewrite Hc in *.
  cbn [single_spaced spaced_from] in *. rewrite Hc in *. exact H.
Qed.

(** ** dedup_key and remove_duplicates *)

Section Dedup.

Lemma set_mem_In (k : string) (s : list string) :
  set_mem k s = true <-> In k s.
Proof.
  unfold set_mem. rewrite existsb_exists. split.
  - intros (x & Hx & He). apply String.eqb_eq in He. now subst.
  - intros H. exists k. split; [exact H|apply String.eqb_refl].
Qed.

Lemma set_add_In (k x : string) (s : list string) :
  In x (set_add k s) <-> x = k \/ In x s.
Proof.
  unfold set_add. destruct (set_mem k s) eqn:E.
  - apply set_mem_In in E. split; [now right|].
    intros [->|H]; assumption.
  - simpl. split; intros [H|H]; auto.
Qed.

Lemma NoDup_snoc {A : Type} (l : list A) (x : A) :
  NoDup l -> ~ In x l -> NoDup (l ++ [x]).
Proof.
  induction 1 as [|a l Ha Hl IH]; intros Hx; simpl.
  - constructor; [intros []|constructor].
  - constructor.
    + rewrite in_app_iff. intros [H|[H|[]]]; [contradiction|].
      subst. apply Hx. now left.
    + apply IH. intros H. apply Hx. now right.
Qed.

Lemma Subseq_snoc_keep {A : Type} (kept all : list A) (x : A) :
  Subseq kept all -> Subseq (kept ++ [x]) (all ++ [x]).
Proof.
  induction 1; simpl; try (constructor; assumption).
  apply Subseq_keep. constructor.
Qed.

Lemma Subseq_snoc_skip {A : Type} (kept all : list A) (x : A) :
  Subseq kept all -> Subseq kept (all ++ [x]).
Proof.
  induction 1; simpl; try (constructor; assumption).
  apply Subseq_skip. constructor.
Qed.

Lemma first_with_key_app (b : BookRecord) (l1 l2 : list BookRecord) :
  first_with_key b (l1 ++ l2)
  = match first_with_key b l1 with
    | Some b' => Some b'
    | None => first_with_key b l2
    end.
Proof.
  unfold first_with_key. induction l1 as [|a l1 IH]; simpl; [reflexivity|].
  destruct (String.eqb (dedup_key a) (dedup_key b)); [reflexivity|exact IH].
Qed.

Lemma first_with_key_None (b : BookRecord) (l : list BookRecord) :
  ~ In (dedup_key b) (map dedup_key l) -> first_with_key b l = None.
Proof.
  unfold first_with_key. induction l as [|a l IH]; simpl; [reflexivity|].
  intros H. destruct (String.eqb_spec (dedup_key a) (dedup_key b)) as [E|E].
  - exfalso. apply H. now left.
  - apply IH. intros Hin. apply H. now right.
Qed.

Lemma dedup_step_inv (done : list BookRecord) (st : dedup_state)
      (b : BookRecord) :
  dedup_inv done st -> dedup_inv (done ++ [b]) (dedup_step st b).
Proof.
  intros (Hseen & Hnd & Hcov & Hfirst & Hsub & Hcount).
  unfold dedup_inv, dedup_step.
  destruct (set_mem (dedup_key b) (seen_keys st)) eqn:E;
    cbn [negb seen_keys unique_books duplicate_count].
  - apply set_mem_In in E. apply Hseen in E.
    repeat split.
    + apply Hseen.
    + apply Hseen.
    + exact Hnd.
    + intros x Hx. apply in_app_iff in Hx.
      destruct Hx as [Hx|[<-|[]]]; [now apply Hcov|exact E].
    + rewrite Forall_forall in *. intros x Hx.
      rewrite first_with_key_app, (Hfirst x Hx). reflexivity.
    + now apply Subseq_snoc_skip.
    + rewrite length_app. simpl. lia.
  - assert (Hnew : ~ In (dedup_key b) (map dedup_key (unique_books st))).
    { intros H. apply Hseen in H. apply set_mem_In in H. congruence. }
    rewrite map_app. cbn [map].
    repeat split.
    + intros H. apply set_add_In in H. apply in_app_iff.
      destruct H as [->|H]; [right; now left|left; now apply Hseen].
    + intros H. apply set_add_In. apply in_app_iff in H.
      destruct H as [H|[<-|[]]]; [right; now apply Hseen|now left].
    + now apply NoDup_snoc.
    + intros x Hx. apply in_app_iff. apply in_app_iff in Hx.
      destruct Hx as [Hx|[<-|[]]]; [left; now apply Hcov|right; now left].
    + apply Forall_app. split.
      * rewrite Forall_forall in *. intros x Hx.
        rewrite first_with_key_app, (Hfirst x Hx). reflexivity.
      * constructor; [|constructor].
        rewrite first_with_key_app, first_with_key_None.
        -- unfold first_with_key. simpl. now rewrite String.eqb_refl.
        -- intros H. apply Hnew. apply in_map_iff in H.
           destruct H as (x & Hk & Hx). rewrite <- Hk. now apply Hcov.
    + now apply Subseq_snoc_keep.
    + rewrite !length_app. simpl. lia.
Qed.

Lemma dedup_fold_inv (books done : list BookRecord) (st : dedup_state) :
  dedup_inv done st ->
  dedup_inv (done ++ books) (fold_left dedup_step books st).
Proof.
  revert done st. induction books as [|b books IH]; intros done st H; simpl.
  - now rewrite app_nil_r.
  - replace (done ++ b :: books) with ((done ++ [b]) ++ books)
      by (now rewrite <- app_assoc).
    apply IH. now apply dedup_step_inv.
Qed.

Lemma remove_duplicates_inv (books : list BookRecord) :
  dedup_inv books (fold_left dedup_step books (mkDedup [] [] 0)).
Proof.
  apply (dedup_fold_inv books [] (mkDedup [] [] 0)).
  repeat split; simpl; try tauto; constructor.
Qed.

(** Records with keys that differ from one another and from the keys seen
    are all kept. *)
Lemma dedup_fold_distinct (books : list BookRecord) (st : dedup_state) :
  NoDup (map dedup_key books) ->
  (forall b, In b books -> ~ In (dedup_key b) (seen_keys st)) ->
  unique_books (fold_left dedup_step books st) = unique_books st ++ books
  /\ duplicate_count (fold_left dedup_step books st) = duplicate_count st.
Proof.
  revert st. induction books as [|b books IH]; intros st Hnd Hnew; simpl.
  - now rewrite app_nil_r.
  - inversion Hnd as [|k ks Hk Hks]; subst.
    assert (E : set_mem (dedup_key b) (seen_keys st) = false).
    { destruct (set_mem (dedup_key b) (seen_keys st)) eqn:E; [|reflexivity].
      apply set_mem_In in E. exfalso. apply (Hnew b); [now left|exact E]. }
    unfold dedup_step at 2 4. rewrite E. cbn [negb].
    destruct (IH (mkDedup (set_add (dedup_key b) (seen_keys st))
                    (unique_books st ++ [b]) (duplicate_count st)) Hks)
      as [Hu Hd].
    + cbn [seen_keys]. intros x Hx H. apply set_add_In in H.
      destruct H as [H|H].
      * apply Hk. rewrite <- H. now apply in_map.
      * apply (Hnew x); [now right|exact H].
    + rewrite Hu, Hd. cbn [unique_books duplicate_count].
      now rewrite <- app_assoc.
Qed.

End Dedup.

(** X20. A record with an ISBN of at least ten characters shares its key
    with exactly the records that have the same such ISBN; a record keyed
    by title and author never has its key. *)
Theorem dedup_key_isbn (b1 b2 : BookRecord) :
  has_isbn b1 = true ->
  (dedup_key b1 = dedup_key b2 <->
   has_isbn b2 = true /\ isbn b1 = isbn b2).
Proof.
  intros H1. unfold dedup_key. rewrite H1. split.
  - destruct (has_isbn b2) eqn:H2.
    + intros H. injection H as H. auto.
    + intros H. discriminate H.
  - intros [H2 He]. now rewrite H2, He.
Qed.

Lemma dedup_key_isbn_witness :
  dedup_key (new_BookRecord "Dune" "Frank Herbert" "978-0441013593" "1965")
  = dedup_key (new_BookRecord "DUNE" "Herbert, F." "9780441013593" "")
  <-> has_isbn (new_BookRecord "DUNE" "Herbert, F." "9780441013593" "") = true
      /\ isbn (new_BookRecord "Dune" "Frank Herbert" "978-0441013593" "1965")
         = isbn (new_BookRecord "DUNE" "Herbert, F." "9780441013593" "").
Proof.
  apply dedup_key_isbn. reflexivity.
Defined.

(** X21. After [remove_duplicates] no two records share a key, and no key
    is lost: every record of the input has the key of a record that is
    kept. *)
Theorem remove_duplicates_keys (books : list BookRecord) :
  NoDup (map dedup_key (fst (remove_duplicates books)))
  /\ forall b, In b books ->
       In (dedup_key b) (map dedup_key (fst (remove_duplicates books))).
Proof.
  destruct (remove_duplicates_inv books) as (_ & Hnd & Hcov & _).
  split; assumption.
Qed.

(** X22. [remove_duplicates] keeps the records in their order, and of the
    records with one key it keeps the first. *)
Theorem remove_duplicates_first (books : list BookRecord) :
  Subseq (fst (remove_duplicates books)) books
  /\ Forall (fun b => first_with_key b books = Some b)
       (fst (remove_duplicates books)).
Proof.
  destruct (remove_duplicates_inv books) as (_ & _ & _ & Hfirst & Hsub & _).
  split; assumption.
Qed.

(** X23. The count of [remove_duplicates]: the duplicates removed and the
    records kept add up to the records given. *)
Theorem remove_duplicates_count (books : list BookRecord) :
  snd (remove_duplicates books)
  + List.length (fst (remove_duplicates books))
  = List.length books.
Proof.
  destruct (remove_duplicates_inv books) as (_ & _ & _ & _ & _ & Hcount).
  exact Hcount.
Qed.

(** X24. [remove_duplicates] is idempotent: on its own result it keeps
    every record and counts no duplicate. *)
Theorem remove_duplicates_idempotent (books : list BookRecord) :
  remove_duplicates (fst (remove_duplicates books))
  = (fst (remove_duplicates books), 0).
Proof.
  destruct (remove_duplicates_keys books) as [Hnd _].
  set (kept := fst (remove_duplicates books)) in *.
  unfold remove_duplicates.
  destruct (dedup_fold_distinct kept (mkDedup [] [] 0) Hnd) as [Hu Hd].
  - intros b _ [].
  - now rewrite Hu, Hd.
Qed.

(** ** calculate_stats *)

Section Stats.

Lemma set_add_fold (f : BookRecord -> string) (books : list BookRecord)
      (s : list string) :
  NoDup s ->
  let s' := fold_left (fun s b => set_add (f b) s) books s in
  NoDup s'
  /\ (forall a, In a s' <-> In a s \/ In a (map f books))
  /\ List.length s' <= List.length s + List.length books.
Proof.
  revert s. induction books as [|b books IH]; intros s Hs; simpl.
  - repeat split; auto; [tauto|lia].
  - assert (Hadd : NoDup (set_add (f b) s)).
    { unfold set_add. destruct (set_mem (f b) s) eqn:E; [exact Hs|].
      constructor; [|exact Hs]. intros H. apply set_mem_In in H.
      congruence. }
    assert (Hlen : List.length (set_add (f b) s) <= S (List.length s)).
    { unfold set_add. destruct (set_mem (f b) s); simpl; lia. }
    destruct (IH _ Hadd) as (Hnd & Hin & Hle).
    split; [exact Hnd|]. split.
    + intros a. rewrite Hin, set_add_In. intuition congruence.
    + lia.
Qed.

Lemma count_fold (p : BookRecord -> bool) (books : list BookRecord)
      (n : nat) :
  fold_left (fun n b => if p b then n + 1 else n) books n
  = n + List.length (filter p books).
Proof.
  revert n. induction books as [|b books IH]; intros n; simpl; [lia|].
  rewrite IH. destruct (p b); simpl; lia.
Qed.

End Stats.

(** X25. [calculate_stats]: [unique_authors] is the number of distinct
    author names, compared in lower case, and the count behind
    [isbn_coverage] is the number of records with an ISBN; neither exceeds
    [unique_books], the number of records. *)
Theorem calculate_stats_counts (books : list BookRecord) :
  exists authors,
    NoDup authors
    /\ (forall a, In a authors <->
                  exists b, In b books /\ a = lower (author b))
    /\ calculate_stats books
       = (List.length books, List.length authors,
          List.length (filter has_isbn books))
    /\ List.length authors <= List.length books
    /\ List.length (filter has_isbn books) <= List.length books.
Proof.
  unfold calculate_stats.
  destruct (set_add_fold (fun b => lower (author b)) books [])
    as (Hnd & Hin & Hle); [constructor|].
  eexists. split; [exact Hnd|]. split; [|split; [|split]].
  - intros a. rewrite Hin, in_map_iff. split.
    + intros [[]|(b & <- & Hb)]. eauto.
    + intros (b & Hb & ->). right. eauto.
  - now rewrite count_fold.
  - simpl in Hle. exact Hle.
  - apply filter_length_le.
Qed.
